(** * AT24CXX serial EEPROM driver: page splitting and address folding

    A shallow embedding of [src/at24cxx.cpp] (class [PeripheralIO::AT24CXX])
    and the properties of its chip descriptors, its range and mode guards,
    its page-write splitter and its bus-address folding.

    Conventions of the embedding.
    - C++ integers are [Z]; every conversion to a fixed-width unsigned type
      that the source performs ([uint8_t], [uint16_t], [uint32_t]) is
      written out as a reduction modulo the width ([u8], [u16], [u32]).
      [int] is taken to be 32 bits wide, so the promoted arithmetic of the
      source ([address + len], [len + offset - 1], ...) never overflows.
    - [/] and [%] on [int] are [Z.quot] and [Z.rem] (truncation toward
      zero); a zero divisor is undefined behaviour and makes the run fail.
    - The hardware abstraction layer ([HAL::I2C], [HAL::GPIO],
      [HAL::delay_ms]) is external to the repository: a call to it is
      recorded, in order, in a log carried by the machine state. *)

From Stdlib Require Import ZArith List Bool Lia.
Import ListNotations.
Local Open Scope Z_scope.

(** ** Fixed-width unsigned conversions *)

Definition u8 (x : Z) : Z := x mod 256.
Definition u16 (x : Z) : Z := x mod 65536.
Definition u32 (x : Z) : Z := x mod 4294967296.

Definition is_u8 (x : Z) : Prop := 0 <= x < 256.
Definition is_u16 (x : Z) : Prop := 0 <= x < 65536.

(** A C++ integer used as a condition. *)
Definition truthy (x : Z) : bool := negb (x =? 0).

(** ** Chip selection constants (at24cxx.cpp, lines 16-26)

    Each constant is the bitwise or of four shifted fields, converted to
    [uint32_t]. *)

Definition descriptor (chip_size page_size addr_bytes addr_ov_bits : Z) : Z :=
  u32 (Z.lor (Z.lor (Z.lor chip_size (Z.shiftl page_size 20))
                    (Z.shiftl addr_bytes 28))
             (Z.shiftl addr_ov_bits 30)).

Definition AT24C01  : Z := descriptor 128   8   1 0.
Definition AT24C02  : Z := descriptor 256   8   1 0.
Definition AT24C04  : Z := descriptor 512   16  1 1.
Definition AT24C08  : Z := descriptor 1024  16  1 2.
Definition AT24C16  : Z := descriptor 2048  16  1 3.
Definition AT24C32  : Z := descriptor 4096  32  2 0.
Definition AT24C64  : Z := descriptor 8192  32  2 0.
Definition AT24C128 : Z := descriptor 16384 64  2 0.
Definition AT24C256 : Z := descriptor 32768 64  2 0.
Definition AT24C512 : Z := descriptor 65536 128 2 0.

Definition chip_table : list Z :=
  [AT24C01; AT24C02; AT24C04; AT24C08; AT24C16;
   AT24C32; AT24C64; AT24C128; AT24C256; AT24C512].

(** Base address and I2C defines (lines 29-30). *)
Definition AT24CXX_ADDR : Z := 0x50.
Definition EEPROM_WRITE_CYCLE_TIME_MS : Z := 5.

(** ** The hardware abstraction layer, as a log of calls *)

Inductive pin_mode : Type := OUTPUT.

Inductive hal_call : Type :=
| I2C_init
| I2C_setAddress (addr : Z)
| I2C_write8 (reg : Z) (data : list Z)
| I2C_write16 (reg : Z) (data : list Z)
| I2C_writeRead8 (reg : Z) (len : Z)
| I2C_writeRead16 (reg : Z) (len : Z)
| GPIO_pinMode (pin : Z) (dir : pin_mode)
| GPIO_digitalWrite (pin : Z) (level : bool)
| HAL_delay_ms (ms : Z).

(** ** The driver object (at24cxx.h, lines 124-132)

    [_i2c] and [_wp_pin] are HAL objects; the pin number the GPIO object
    was built from is kept in [_wp_pin]. *)

Record AT24CXX : Type := mkAT24CXX {
  _wp_pin       : Z;
  _chip_size    : Z;
  _chip_addr    : Z;
  _page_size    : Z;
  _addr_bytes   : Z;
  _addr_ov_bits : Z;
  _addr_size    : Z;
  _mode         : Z
}.

Definition set_mode (d : AT24CXX) (v : Z) : AT24CXX :=
  mkAT24CXX (_wp_pin d) (_chip_size d) (_chip_addr d) (_page_size d)
            (_addr_bytes d) (_addr_ov_bits d) (_addr_size d) v.

Record machine : Type := mkMachine {
  self : AT24CXX;
  hal  : list hal_call
}.

(** ** A state monad with failure for undefined behaviour *)

Module DriverMonad.

Definition M (A : Type) : Type := machine -> option (A * machine).

Definition ret {A} (a : A) : M A := fun m => Some (a, m).

Definition bind {A B} (c : M A) (k : A -> M B) : M B :=
  fun m => match c m with
           | Some (a, m') => k a m'
           | None => None
           end.

(** Undefined behaviour of the source. *)
Definition undefined {A} : M A := fun _ => None.

Definition this : M AT24CXX := fun m => Some (self m, m).

Definition assign_mode (v : Z) : M unit :=
  fun m => Some (tt, mkMachine (set_mode (self m) v) (hal m)).

Definition call (c : hal_call) : M unit :=
  fun m => Some (tt, mkMachine (self m) (hal m ++ [c])).

Definition skip : M unit := ret tt.

End DriverMonad.
Import DriverMonad.

Notation "x <- c ;; k" := (bind c (fun x => k))
  (at level 61, c at next level, right associativity).
Notation "c ;; k" := (bind c (fun _ => k))
  (at level 61, right associativity).

(** [int] division and remainder. *)
Definition c_div (a b : Z) : M Z :=
  if b =? 0 then undefined else ret (Z.quot a b).
Definition c_rem (a b : Z) : M Z :=
  if b =? 0 then undefined else ret (Z.rem a b).

(** ** Constructor (lines 33-43)

    The parameters [chip_addr] and [wp_pin] are [uint8_t], [chip] is
    [uint32_t]; the conversion at the call is part of the model. *)

Definition AT24CXX_new (chip chip_addr wp_pin : Z) : machine :=
  let chip := u32 chip in
  let chip_addr := u8 chip_addr in
  let wp_pin := u8 wp_pin in
  mkMachine
    {| _wp_pin       := wp_pin;
       _chip_size    := Z.land chip 0x0001FFFF;
       _chip_addr    := u8 (Z.lor AT24CXX_ADDR (Z.land chip_addr 0x07));
       _page_size    := u8 (Z.shiftr (Z.land chip 0x0FF00000) 20);
       _addr_bytes   := u8 (Z.shiftr (Z.land chip 0x30000000) 28);
       _addr_ov_bits := u8 (Z.shiftr (Z.land chip 0xC0000000) 30);
       _addr_size    := 0;
       _mode         := wp_pin |}
    [].

(** ** init (lines 45-59)

    [_mode] is a [uint8_t]; in [_mode != -1] it is promoted to [int] and
    compared with the [int] -1. *)

Definition init : M unit :=
  call I2C_init ;;
  d <- this ;;
  if negb (_mode d =? -1) then
    call (GPIO_pinMode (_wp_pin d) OUTPUT) ;;
    call (GPIO_digitalWrite (_wp_pin d) false) ;;
    assign_mode 2
  else
    assign_mode 1.

(** ** Write protect (lines 96-110) *)

Definition setWriteProtect : M unit :=
  d <- this ;;
  if 2 =? _mode d then call (GPIO_digitalWrite (_wp_pin d) true) else skip.

Definition clearWriteProtect : M unit :=
  d <- this ;;
  if 2 =? _mode d then call (GPIO_digitalWrite (_wp_pin d) false) else skip.

(** ** Address folding (lines 139 and 170)

    The same expression occurs in [writeN], at the current write pointer,
    and in [readN], at the starting address. *)

Definition folded_bus_address (d : AT24CXX) (a : Z) : Z :=
  u8 (Z.lor (Z.land (_chip_addr d) 0xF8) (Z.shiftr (Z.land a 0x0700) 8)).

(** [&vals[from]], [count] bytes of it; the caller's buffer is expected to
    hold the [len] bytes of the request. *)
Definition slice (vals : list Z) (from count : Z) : list Z :=
  firstn (Z.to_nat count) (skipn (Z.to_nat from) vals).

(** ** writeN (lines 113-158)

    [address] and [len] are [uint16_t] parameters: the properties below
    take them in that range ([is_u16]). *)

(** Lines 125-128: the local [page_size]. *)
Definition write_page_size (d : AT24CXX) (len : Z) : Z :=
  if (1 <? _addr_bytes d) && (30 <? len) then 16 else _page_size d.

(** Lines 135-153: the loop; [n] is the number of iterations left
    ([pages_req - i]), the loop-carried variables are [bytes_sent] and
    [offset]. *)
Fixpoint writeN_loop (n : nat) (address : Z) (vals : list Z) (len : Z)
                     (page_size bytes_sent offset : Z) : M unit :=
  match n with
  | O => ret tt
  | S n' =>
      d <- this ;;
      (if truthy (_addr_ov_bits d)
       then call (I2C_setAddress (folded_bus_address d (address + bytes_sent)))
       else skip) ;;
      let chunk :=
        u8 (if page_size - offset <? len - bytes_sent
            then page_size - offset
            else len - bytes_sent) in
      (if 1 <? _addr_bytes d
       then call (I2C_write16 (u16 (address + bytes_sent))
                              (slice vals bytes_sent chunk))
       else call (I2C_write8 (u8 (address + bytes_sent))
                             (slice vals bytes_sent chunk))) ;;
      let bytes_sent := u16 (bytes_sent + chunk) in
      let offset := 0 in
      call (HAL_delay_ms EEPROM_WRITE_CYCLE_TIME_MS) ;;
      writeN_loop n' address vals len page_size bytes_sent offset
  end.

Definition writeN (address : Z) (vals : list Z) (len : Z) : M bool :=
  d <- this ;;
  if truthy (_mode d) && (u32 (address + len) <=? _chip_size d) then
    let page_size := write_page_size d len in
    let bytes_sent := 0 in
    r <- c_rem address page_size ;;
    let offset := u8 r in
    q <- c_div (len + offset - 1) page_size ;;
    let pages_req := u16 (q + 1) in
    writeN_loop (Z.to_nat pages_req) address vals len page_size
                bytes_sent offset ;;
    ret true
  else
    ret false.

(** ** readN (lines 161-183)

    The bytes the transport stores into the caller's buffer are not part
    of the model. *)

Definition readN (address len : Z) : M bool :=
  d <- this ;;
  if truthy (_mode d) && (u32 (address + len) <=? _chip_size d) then
    (if truthy (_addr_ov_bits d)
     then call (I2C_setAddress (folded_bus_address d (address + 0)))
     else skip) ;;
    (if 1 <? _addr_bytes d
     then call (I2C_writeRead16 (u16 address) len)
     else call (I2C_writeRead8 (u8 address) len)) ;;
    ret true
  else
    ret false.

(** ** Public overloads (lines 61-94) *)

Definition write_byte (address val : Z) : M bool :=
  writeN address [val] 1.

Definition write (address : Z) (vals : list Z) (len : Z) : M bool :=
  writeN address vals len.

Definition write_str (address : Z) (str : list Z) (len : Z) : M bool :=
  writeN address str len.

(** [uint8_t read(uint16_t)]: the result of [readN] is dropped. *)
Definition read_byte (address : Z) : M unit :=
  readN address 1 ;; ret tt.

Definition read (address len : Z) : M bool :=
  readN address len.

Definition read_str (address len : Z) : M bool :=
  readN address len.

Definition after {A} (c : M A) (m : machine) : machine :=
  match c m with
  | Some (_, m') => m'
  | None => m
  end.

(** A freshly constructed device on which [init()] has been called. *)
Definition ready (chip chip_addr wp_pin : Z) : machine :=
  after init (AT24CXX_new chip chip_addr wp_pin).

(** ** The chunks of a write

    [chunks_from] is the sequence of (logical address, size) pairs the
    loop of [writeN] goes through, without the fixed-width conversions;
    [pages_req] is line 133. *)

Definition chunk : Type := (Z * Z)%type.

Fixpoint chunks_from (n : nat) (address len page_size bytes_sent offset : Z)
  : list chunk :=
  match n with
  | O => []
  | S n' =>
      let chunk_size := Z.min (page_size - offset) (len - bytes_sent) in
      (address + bytes_sent, chunk_size)
        :: chunks_from n' address len page_size (bytes_sent + chunk_size) 0
  end.

Definition pages_req (page_size address len : Z) : Z :=
  u16 (Z.quot (len + u8 (Z.rem address page_size) - 1) page_size + 1).

Definition write_chunks (page_size address len : Z) : list chunk :=
  chunks_from (Z.to_nat (pages_req page_size address len))
              address len page_size 0 (u8 (Z.rem address page_size)).

(** The HAL calls of one chunk (lines 137-152). *)
Definition data_write (d : AT24CXX) (a : Z) (data : list Z) : hal_call :=
  if 1 <? _addr_bytes d then I2C_write16 (u16 a) data
  else I2C_write8 (u8 a) data.

Definition chunk_calls (d : AT24CXX) (address : Z) (vals : list Z)
                       (c : chunk) : list hal_call :=
  (if truthy (_addr_ov_bits d)
   then [I2C_setAddress (folded_bus_address d (fst c))]
   else [])
  ++ [data_write d (fst c) (slice vals (fst c - address) (snd c));
      HAL_delay_ms EEPROM_WRITE_CYCLE_TIME_MS].

Definition log_calls (m : machine) (cs : list hal_call) : machine :=
  mkMachine (self m) (hal m ++ cs).

(** ** The page-write splitter in the words of the specification

    Section 4.3: [offset = address mod effective_page_size],
    [chunk_count = ceil((length + offset) / effective_page_size)], then
    [chunk_count] chunks of size
    [min(effective_page_size - offset, length - bytes_sent)], the offset
    being 0 after the first. *)

Definition ceil_div (a b : Z) : Z := - ((- a) / b).

Definition spec_offset (eps address : Z) : Z := address mod eps.

Definition spec_chunk_count (eps address len : Z) : Z :=
  ceil_div (len + spec_offset eps address) eps.

Definition spec_plan (eps address len : Z) : list chunk :=
  chunks_from (Z.to_nat (spec_chunk_count eps address len))
              address len eps 0 (spec_offset eps address).

(** [tiles lo hi cs]: the chunks [cs] cover [lo, hi) from left to right,
    each starting where the previous one ends. *)
Fixpoint tiles (lo hi : Z) (cs : list chunk) : Prop :=
  match cs with
  | [] => lo = hi
  | c :: cs' => fst c = lo /\ 0 <= snd c /\ tiles (lo + snd c) hi cs'
  end.

(** ** Address translation in the words of the specification (4.2) *)

Definition spec_bus_address (k base a : Z) : Z :=
  Z.lor (Z.land base (Z.lnot 0x07))
        (Z.land (Z.shiftr a 8) (Z.shiftl 1 k - 1)).

Definition spec_in_chip_address (a : Z) : Z := Z.land a 0xFF.

(** ** Profile invariants of the specification (3) *)

Definition profile_ok (d : AT24CXX) : Prop :=
  0 < _chip_size d <= 65536 /\
  In (_page_size d) [8; 16; 32; 64; 128] /\
  In (_addr_bytes d) [1; 2] /\
  In (_addr_ov_bits d) [0; 1; 2; 3] /\
  (_addr_ov_bits d <> 0 -> _addr_bytes d = 1).

(** The HAL calls of a read (lines 168-177). *)
Definition read_calls (d : AT24CXX) (address len : Z) : list hal_call :=
  (if truthy (_addr_ov_bits d)
   then [I2C_setAddress (folded_bus_address d address)]
   else [])
  ++ [if 1 <? _addr_bytes d
      then I2C_writeRead16 (u16 address) len
      else I2C_writeRead8 (u8 address) len].

(** The effective page size in the words of the specification (4.3). *)
Definition spec_effective_page_size (page_size addr_bytes len : Z) : Z :=
  if Z_gt_dec addr_bytes 1 then
    if Z_gt_dec len 30 then 16 else page_size
  else page_size.

(** The calls of one chunk and of a read, with the translation of the
    specification for [k] overflow bits. *)
Definition spec_chunk_calls (k base address : Z) (vals : list Z)
                            (c : chunk) : list hal_call :=
  [I2C_setAddress (spec_bus_address k base (fst c));
   I2C_write8 (spec_in_chip_address (fst c))
              (slice vals (fst c - address) (snd c));
   HAL_delay_ms EEPROM_WRITE_CYCLE_TIME_MS].

Definition spec_read_calls (k base address len : Z) : list hal_call :=
  [I2C_setAddress (spec_bus_address k base address);
   I2C_writeRead8 (spec_in_chip_address address) len].

(** ** Statements compared with the source *)

(** The statement of C1 for one request: the write issues exactly the
    calls of the specification's plan. *)
Definition splits_by_plan (m : machine) (address : Z) (vals : list Z)
                          (len : Z) : Prop :=
  writeN address vals len m =
  Some (true,
        log_calls m
          (flat_map (chunk_calls (self m) address vals)
             (spec_plan (write_page_size (self m) len) address len))).

(** The statement of C2 for a one-byte read at [address]: the calls are
    those of the specification's translation for the chip's own number
    [k] of overflow bits. *)
Definition read_translated_by_k_bits (m : machine) (address : Z) : Prop :=
  readN address 1 m =
  Some (true,
        log_calls m
          (spec_read_calls (_addr_ov_bits (self m)) (_chip_addr (self m))
                           address 1)).

(** ** Observations on the HAL log *)

(** The bytes handed to the transport's write calls, in order. *)
Definition written_data (cs : list hal_call) : list Z :=
  flat_map (fun c => match c with
                     | I2C_write8 _ data | I2C_write16 _ data => data
                     | _ => []
                     end) cs.

(** The time spent in [HAL::delay_ms], in milliseconds. *)
Definition delay_total (cs : list hal_call) : Z :=
  fold_right (fun c t => match c with
                         | HAL_delay_ms ms => ms + t
                         | _ => t
                         end) 0 cs.

(** The calls a transfer on device [d] may make: bus writes, combined
    write-read transactions, delays, and [setAddress] on a chip with
    address overflow bits. *)
Definition transfer_call (d : AT24CXX) (c : hal_call) : Prop :=
  match c with
  | I2C_setAddress _ => _addr_ov_bits d <> 0
  | I2C_write8 _ _ | I2C_write16 _ _ => True
  | I2C_writeRead8 _ _ | I2C_writeRead16 _ _ => True
  | HAL_delay_ms _ => True
  | I2C_init | GPIO_pinMode _ _ | GPIO_digitalWrite _ _ => False
  end.

Definition is_setAddress (c : hal_call) : bool :=
  match c with I2C_setAddress _ => true | _ => false end.

(** Everything but [_mode]. *)
Definition same_profile (d d' : AT24CXX) : Prop :=
  _wp_pin d' = _wp_pin d /\ _chip_size d' = _chip_size d /\
  _chip_addr d' = _chip_addr d /\ _page_size d' = _page_size d /\
  _addr_bytes d' = _addr_bytes d /\ _addr_ov_bits d' = _addr_ov_bits d /\
  _addr_size d' = _addr_size d.

(** The number of logical addresses the calls of a transfer can tell
    apart: two address bytes, or one address byte with or without the
    three folded bits. *)
Definition wire_reach (d : AT24CXX) : Z :=
  if 1 <? _addr_bytes d then 65536
  else if truthy (_addr_ov_bits d) then 2048 else 256.

(** ** Clients

    A client of the driver is a sequence of calls of its public member
    functions. *)

Inductive api_call : Type :=
| Call_init
| Call_write_byte (address val : Z)
| Call_write (address : Z) (vals : list Z) (len : Z)
| Call_read_byte (address : Z)
| Call_read (address len : Z)
| Call_setWriteProtect
| Call_clearWriteProtect.

Definition do_call (c : api_call) : M unit :=
  match c with
  | Call_init => init
  | Call_write_byte address val => write_byte address val ;; ret tt
  | Call_write address vals len => write address vals len ;; ret tt
  | Call_read_byte address => read_byte address
  | Call_read address len => read address len ;; ret tt
  | Call_setWriteProtect => setWriteProtect
  | Call_clearWriteProtect => clearWriteProtect
  end.

Fixpoint do_calls (cs : list api_call) : M unit :=
  match cs with
  | [] => ret tt
  | c :: cs' => do_call c ;; do_calls cs'
  end.

(** * Properties *)

(** ** Arithmetic of the conversions *)

Lemma u8_small x : 0 <= x < 256 -> u8 x = x.
Proof. intros H. unfold u8. apply Z.mod_small. exact H. Qed.

Lemma u16_small x : 0 <= x < 65536 -> u16 x = x.
Proof. intros H. unfold u16. apply Z.mod_small. exact H. Qed.

Lemma u32_small x : 0 <= x < 4294967296 -> u32 x = x.
Proof. intros H. unfold u32. apply Z.mod_small. exact H. Qed.

Lemma truthy_true x : x <> 0 -> truthy x = true.
Proof.
  intros H. unfold truthy. destruct (Z.eqb_spec x 0); [contradiction | reflexivity].
Qed.

Lemma ceil_div_bounds a b :
  0 < b -> (ceil_div a b - 1) * b < a <= ceil_div a b * b.
Proof.
  intros Hb. unfold ceil_div.
  pose proof (Z.div_mod (- a) b ltac:(lia)) as E.
  pose proof (Z.mod_pos_bound (- a) b Hb) as B.
  nia.
Qed.

Lemma ceil_div_unique a b q :
  0 < b -> (q - 1) * b < a <= q * b -> ceil_div a b = q.
Proof.
  intros Hb Hq. pose proof (ceil_div_bounds a b Hb) as Hc. nia.
Qed.

(** ** The loop of [writeN] goes through [chunks_from] *)

Lemma writeN_loop_run n :
  forall address vals len page_size bytes_sent offset m,
    0 <= bytes_sent <= len -> len < 65536 ->
    0 <= offset < page_size -> page_size < 256 ->
    writeN_loop n address vals len page_size bytes_sent offset m =
    Some (tt, log_calls m
                (flat_map (chunk_calls (self m) address vals)
                   (chunks_from n address len page_size bytes_sent offset))).
Proof.
  induction n as [|n IH]; intros address vals len ps sent off m Hs Hl Ho Hp.
  - simpl. unfold ret, log_calls. rewrite app_nil_r. destruct m; reflexivity.
  - cbn [writeN_loop chunks_from flat_map].
    set (sz := Z.min (ps - off) (len - sent)).
    assert (Hsz : (if ps - off <? len - sent then ps - off else len - sent) = sz).
    { unfold sz. destruct (Z.ltb_spec (ps - off) (len - sent)); lia. }
    rewrite Hsz.
    assert (Hsz8 : u8 sz = sz) by (apply u8_small; unfold sz; lia).
    rewrite Hsz8.
    assert (H16 : u16 (sent + sz) = sent + sz) by (apply u16_small; unfold sz; lia).
    rewrite H16.
    unfold bind at 1. unfold this at 1.
    unfold bind at 1.
    set (pre := if truthy (_addr_ov_bits (self m))
                then [I2C_setAddress (folded_bus_address (self m) (address + sent))]
                else []).
    assert (E1 : (if truthy (_addr_ov_bits (self m))
                  then call (I2C_setAddress (folded_bus_address (self m) (address + sent)))
                  else skip) m = Some (tt, log_calls m pre)).
    { unfold pre, log_calls, call, skip, ret.
      destruct (truthy (_addr_ov_bits (self m))); [reflexivity|].
      rewrite app_nil_r. destruct m; reflexivity. }
    rewrite E1.
    unfold bind at 1.
    assert (E2 : (if 1 <? _addr_bytes (self m)
                  then call (I2C_write16 (u16 (address + sent)) (slice vals sent sz))
                  else call (I2C_write8 (u8 (address + sent)) (slice vals sent sz)))
                 (log_calls m pre)
                 = Some (tt, log_calls m (pre ++ [data_write (self m) (address + sent) (slice vals sent sz)]))).
    { unfold data_write, log_calls, call. cbn [self hal].
      destruct (1 <? _addr_bytes (self m)); cbn [self hal];
        rewrite <- app_assoc; reflexivity. }
    rewrite E2.
    unfold bind at 1. unfold call at 1. cbn [self hal log_calls].
    rewrite IH by (cbn [self]; unfold sz; lia).
    unfold log_calls, chunk_calls. cbn [self hal fst snd].
    fold pre. replace (address + sent - address) with sent by lia.
    repeat rewrite <- app_assoc. reflexivity.
Qed.

(** ** The chunks tile the requested interval *)

Lemma chunks_from_length n address len page_size bytes_sent offset :
  length (chunks_from n address len page_size bytes_sent offset) = n.
Proof.
  revert bytes_sent offset.
  induction n as [|n IH]; intros; cbn [chunks_from length]; [|rewrite IH]; reflexivity.
Qed.

Lemma chunks_from_tiles n :
  forall address len page_size bytes_sent offset,
    0 <= offset < page_size -> 0 <= bytes_sent <= len ->
    len - bytes_sent + offset <= Z.of_nat n * page_size ->
    tiles (address + bytes_sent) (address + len)
          (chunks_from n address len page_size bytes_sent offset).
Proof.
  induction n as [|n IH]; intros address len ps sent off Ho Hs Hn.
  - cbn. lia.
  - cbn [chunks_from tiles fst snd].
    rewrite Nat2Z.inj_succ in Hn.
    split; [reflexivity|]. split; [lia|].
    rewrite <- Z.add_assoc. apply IH; [lia | lia |].
    destruct (Z_lt_le_dec (ps - off) (len - sent)).
    + rewrite Z.min_l by lia. lia.
    + rewrite Z.min_r by lia. nia.
Qed.

Lemma chunks_from_positive n :
  forall address len page_size bytes_sent offset,
    0 <= offset < page_size -> 0 <= bytes_sent < len ->
    (Z.of_nat n - 1) * page_size < len - bytes_sent + offset ->
    Forall (fun c : chunk => 0 < snd c)
           (chunks_from n address len page_size bytes_sent offset).
Proof.
  induction n as [|n IH]; intros address len ps sent off Ho Hs Hn.
  - constructor.
  - cbn [chunks_from]. constructor; [cbn [snd]; lia|].
    rewrite Nat2Z.inj_succ in Hn.
    destruct (Z_lt_le_dec (ps - off) (len - sent)) as [Hlt|Hge].
    + rewrite Z.min_l by lia. apply IH; lia.
    + destruct n as [|n']; [constructor | exfalso].
      rewrite Nat2Z.inj_succ in Hn. nia.
Qed.

(** ** The page count of line 133 *)

Section Splitter.

Variables page_size address len : Z.
Hypothesis Hps : 0 < page_size < 256.
Hypothesis Ha : is_u16 address.
Hypothesis Hl : is_u16 len.

Lemma rem_offset :
  u8 (Z.rem address page_size) = address mod page_size /\
  0 <= address mod page_size < page_size.
Proof using Hps Ha.
  unfold is_u16 in Ha.
  rewrite Z.rem_mod_nonneg by lia.
  pose proof (Z.mod_pos_bound address page_size ltac:(lia)) as B.
  split; [apply u8_small; lia | exact B].
Qed.

Lemma pages_req_nonneg : 0 <= pages_req page_size address len.
Proof using Type.
  unfold pages_req, u16. apply Z.mod_pos_bound. lia.
Qed.

(** With something to send or a start inside a page, line 133 is the
    ceiling of the specification. *)
Lemma pages_req_ceil :
  0 < len + address mod page_size ->
  pages_req page_size address len = spec_chunk_count page_size address len.
Proof using Hps Ha Hl.
  intros Hpos. destruct rem_offset as [Hoff Hb]. unfold is_u16 in *.
  unfold pages_req, spec_chunk_count, spec_offset. rewrite Hoff.
  set (r := address mod page_size) in *.
  rewrite Z.quot_div_nonneg by lia.
  pose proof (Z.div_mod (len + r - 1) page_size ltac:(lia)) as E.
  pose proof (Z.mod_pos_bound (len + r - 1) page_size ltac:(lia)) as B.
  set (q := (len + r - 1) / page_size) in *.
  assert (0 <= q) by (apply Z.div_pos; lia).
  rewrite u16_small by nia.
  symmetry. apply ceil_div_unique; nia.
Qed.

Lemma pages_req_enough :
  len + address mod page_size <= pages_req page_size address len * page_size.
Proof using Hps Ha Hl.
  pose proof (Z.mod_pos_bound address page_size ltac:(lia)) as B.
  destruct (Z_lt_le_dec 0 (len + address mod page_size)) as [Hpos|Hz].
  - rewrite pages_req_ceil by assumption.
    unfold spec_chunk_count, spec_offset.
    apply (ceil_div_bounds (len + address mod page_size) page_size); lia.
  - pose proof pages_req_nonneg. unfold is_u16 in *. nia.
Qed.

Lemma write_chunks_tiles :
  tiles address (address + len) (write_chunks page_size address len).
Proof using Hps Ha Hl.
  destruct rem_offset as [Hoff Hb].
  pose proof pages_req_enough as He.
  pose proof pages_req_nonneg as Hn.
  unfold write_chunks. rewrite Hoff.
  rewrite <- (Z.add_0_r address) at 1.
  apply chunks_from_tiles; unfold is_u16 in *; lia.
Qed.

Lemma write_chunks_plan :
  0 < len + spec_offset page_size address ->
  write_chunks page_size address len = spec_plan page_size address len.
Proof using Hps Ha Hl.
  intros Hpos. destruct rem_offset as [Hoff _].
  unfold write_chunks, spec_plan.
  rewrite pages_req_ceil, Hoff by assumption. reflexivity.
Qed.

End Splitter.

(** An empty request still takes one page when a page holds more than one
    byte: [-1 / page_size] is 0, not -1. *)
Lemma pages_req_empty page_size address :
  1 < page_size < 256 -> is_u16 address ->
  pages_req page_size address 0 = 1.
Proof.
  intros Hp Ha.
  destruct (rem_offset page_size address ltac:(lia) Ha) as [Hoff Hb].
  unfold pages_req. rewrite Hoff.
  set (r := address mod page_size) in *.
  destruct (Z.eq_dec r 0) as [->|Hr].
  - change (0 + 0 - 1) with (- (1)). rewrite Z.quot_opp_l by lia.
    rewrite Z.quot_small by lia. reflexivity.
  - rewrite Z.quot_small by lia. reflexivity.
Qed.

(** ** [writeN] on a request that passes the guard *)

Lemma writeN_run m address vals len :
  _mode (self m) <> 0 -> is_u16 address -> is_u16 len ->
  address + len <= _chip_size (self m) ->
  0 < write_page_size (self m) len < 256 ->
  writeN address vals len m =
  Some (true,
        log_calls m
          (flat_map (chunk_calls (self m) address vals)
             (write_chunks (write_page_size (self m) len) address len))).
Proof.
  intros Hmode Ha Hl Hrange Hps.
  set (ps := write_page_size (self m) len) in *.
  destruct (rem_offset ps address Hps Ha) as [Hoff Hb].
  unfold is_u16 in *.
  unfold writeN. unfold bind at 1. unfold this at 1.
  rewrite (truthy_true _ Hmode), u32_small by lia.
  destruct (Z.leb_spec (address + len) (_chip_size (self m))) as [_|]; [|lia].
  cbn [andb]. fold ps.
  unfold c_rem, c_div.
  destruct (Z.eqb_spec ps 0) as [|_]; [lia|].
  unfold bind at 1. unfold ret at 1.
  unfold bind at 1. unfold ret at 1.
  unfold bind at 1.
  rewrite writeN_loop_run by (rewrite ?Hoff; lia).
  unfold write_chunks, pages_req. reflexivity.
Qed.

(** A page size of 0 makes line 132 divide by zero. *)
Lemma writeN_zero_page_undefined m address vals len :
  _mode (self m) <> 0 -> is_u16 address -> is_u16 len ->
  address + len <= _chip_size (self m) ->
  write_page_size (self m) len = 0 ->
  writeN address vals len m = None.
Proof.
  intros Hmode Ha Hl Hrange Hps. unfold is_u16 in *.
  unfold writeN. unfold bind at 1. unfold this at 1.
  rewrite (truthy_true _ Hmode), u32_small by lia.
  destruct (Z.leb_spec (address + len) (_chip_size (self m))) as [_|]; [|lia].
  cbn [andb]. rewrite Hps. reflexivity.
Qed.

(** ** Reads *)

Lemma readN_run m address len :
  _mode (self m) <> 0 -> is_u16 address -> is_u16 len ->
  address + len <= _chip_size (self m) ->
  readN address len m = Some (true, log_calls m (read_calls (self m) address len)).
Proof.
  intros Hmode Ha Hl Hrange. unfold is_u16 in *.
  unfold readN. unfold bind at 1. unfold this at 1.
  rewrite (truthy_true _ Hmode), u32_small by lia.
  destruct (Z.leb_spec (address + len) (_chip_size (self m))) as [_|]; [|lia].
  cbn [andb]. rewrite Z.add_0_r.
  unfold read_calls, log_calls, bind, call, skip, ret.
  destruct (truthy (_addr_ov_bits (self m))), (1 <? _addr_bytes (self m));
    cbn [self hal app]; rewrite <- ?app_assoc; reflexivity.
Qed.

(** ** init and the mode guard *)

Lemma init_run m :
  is_u8 (_mode (self m)) ->
  init m =
  Some (tt,
        mkMachine (set_mode (self m) 2)
          (hal m ++ [I2C_init; GPIO_pinMode (_wp_pin (self m)) OUTPUT;
                     GPIO_digitalWrite (_wp_pin (self m)) false])).
Proof.
  intros Hm. unfold is_u8 in Hm.
  unfold init, bind, call, this, assign_mode. cbn [self hal].
  destruct (Z.eqb_spec (_mode (self m)) (-1)); [lia|].
  cbn [negb self hal]. repeat rewrite <- app_assoc. reflexivity.
Qed.

Lemma new_mode_u8 chip chip_addr wp_pin :
  is_u8 (_mode (self (AT24CXX_new chip chip_addr wp_pin))).
Proof. cbn. unfold is_u8, u8. apply Z.mod_pos_bound. lia. Qed.

(** After [init()] the mode is 2, whatever pin the device was built
    with: the branch that sets mode 1 is never taken. *)
Lemma ready_mode chip chip_addr wp_pin :
  _mode (self (ready chip chip_addr wp_pin)) = 2.
Proof.
  unfold ready, after.
  rewrite init_run by apply new_mode_u8. reflexivity.
Qed.

(** The mode guard of [writeN] and [readN] holds back a device that was
    built with pin 0 and not initialized. *)
Lemma guard_before_init_pin0 chip chip_addr wp_pin address vals len :
  u8 wp_pin = 0 ->
  writeN address vals len (AT24CXX_new chip chip_addr wp_pin)
  = Some (false, AT24CXX_new chip chip_addr wp_pin)
  /\ readN address len (AT24CXX_new chip chip_addr wp_pin)
     = Some (false, AT24CXX_new chip chip_addr wp_pin).
Proof.
  intros H. unfold writeN, readN, bind, this.
  cbn [self AT24CXX_new _mode]. rewrite H. split; reflexivity.
Qed.

(** ** Bitwise facts of the address folding *)

Lemma u8_land x : u8 x = Z.land x 0xFF.
Proof.
  unfold u8. change 256 with (2 ^ 8). change 0xFF with (Z.ones 8).
  rewrite Z.land_ones by lia. reflexivity.
Qed.

Lemma land_small x n : 0 <= n -> 0 <= x < 2 ^ n -> Z.land x (Z.ones n) = x.
Proof.
  intros Hn Hx. rewrite Z.land_ones by lia. apply Z.mod_small. exact Hx.
Qed.

(** The source folds with the fixed three-bit mask [0x0700]. *)
Lemma folded_bus_address_mask3 d a :
  is_u8 (_chip_addr d) ->
  folded_bus_address d a = spec_bus_address 3 (_chip_addr d) a.
Proof.
  intros Hb. unfold folded_bus_address, spec_bus_address.
  rewrite u8_land, Z.land_lor_distr_l, Z.shiftr_land.
  rewrite <- !Z.land_assoc.
  change (Z.land 0xF8 0xFF) with 0xF8.
  change (Z.land (Z.shiftr 0x0700 8) 0xFF) with 7.
  change (Z.shiftl 1 3 - 1) with 7.
  rewrite <- (land_small (_chip_addr d) 8) at 2 by (unfold is_u8 in Hb; lia).
  rewrite <- Z.land_assoc. reflexivity.
Qed.

(** The three-bit mask and the [k]-bit mask of the specification agree on
    every address that [k] overflow bits can reach. *)
Lemma folded_bus_address_spec d a k :
  is_u8 (_chip_addr d) -> 0 < k <= 3 -> 0 <= a < 256 * 2 ^ k ->
  folded_bus_address d a = spec_bus_address k (_chip_addr d) a.
Proof.
  intros Hb Hk Ha. rewrite folded_bus_address_mask3 by exact Hb.
  unfold spec_bus_address. f_equal.
  assert (Hhi : 0 <= Z.shiftr a 8 < 2 ^ k).
  { rewrite Z.shiftr_div_pow2 by lia. change (2 ^ 8) with 256. split.
    - apply Z.div_pos; lia.
    - apply Z.div_lt_upper_bound; lia. }
  assert (Hk3 : 2 ^ k <= 2 ^ 3) by (apply Z.pow_le_mono_r; lia).
  change (Z.shiftl 1 3 - 1) with (Z.ones 3).
  rewrite (land_small _ 3) by lia.
  assert (E : Z.shiftl 1 k - 1 = Z.ones k)
    by (rewrite Z.ones_equiv, Z.shiftl_1_l; lia).
  rewrite E, land_small by lia. reflexivity.
Qed.

(** The chips of the table that fold address bits have one address byte
    and a capacity of exactly [256 * 2 ^ k] bytes. *)
Lemma chip_table_folding chip_addr wp_pin :
  Forall (fun chip =>
            let d := self (AT24CXX_new chip chip_addr wp_pin) in
            _addr_ov_bits d <> 0 ->
            0 < _addr_ov_bits d <= 3 /\ _addr_bytes d = 1 /\
            _chip_size d = 256 * 2 ^ _addr_ov_bits d)
         chip_table.
Proof.
  unfold chip_table.
  repeat (apply Forall_cons;
          [vm_compute; intuition (discriminate || congruence)|]).
  apply Forall_nil.
Qed.

Lemma new_chip_addr_u8 chip chip_addr wp_pin :
  is_u8 (_chip_addr (self (AT24CXX_new chip chip_addr wp_pin))).
Proof. cbn [AT24CXX_new self _chip_addr]. unfold is_u8, u8. apply Z.mod_pos_bound. lia. Qed.

(** The decoded fields of the ten constants. *)
Lemma chip_table_fields chip_addr wp_pin :
  map (fun chip =>
         let d := self (AT24CXX_new chip chip_addr wp_pin) in
         (_chip_size d, _page_size d, _addr_bytes d, _addr_ov_bits d))
      chip_table
  = [(128, 8, 1, 0); (256, 8, 1, 0); (512, 16, 1, 1); (1024, 16, 1, 2);
     (2048, 16, 1, 3); (4096, 32, 2, 0); (8192, 32, 2, 0);
     (16384, 64, 2, 0); (32768, 64, 2, 0); (65536, 128, 2, 0)].
Proof. reflexivity. Qed.

(** * The claims *)

(** ** C1: the page-write splitter *)

(** C1, for requests with [0 < length + offset]: on an initialized
    device, for every such request within capacity, the write issues
    exactly the chunks of the specification's plan for the effective page
    size, in order: their number is [ceil((length + offset) / effective_page_size)],
    they start at [address] and each starts where the previous one ends,
    they end at [address + length], and none is empty when
    [0 < length]. With an effective page size of 16, a write of 2 bytes at
    address 15 is split into (15, 1) and (16, 1). *)
Theorem C1_write_splits_by_plan m address vals len :
  _mode (self m) <> 0 -> is_u16 address -> is_u16 len ->
  address + len <= _chip_size (self m) ->
  0 < write_page_size (self m) len < 256 ->
  0 < len + spec_offset (write_page_size (self m) len) address ->
  splits_by_plan m address vals len
  /\ Z.of_nat (length (spec_plan (write_page_size (self m) len) address len))
     = spec_chunk_count (write_page_size (self m) len) address len
  /\ tiles address (address + len)
           (spec_plan (write_page_size (self m) len) address len)
  /\ (0 < len ->
      Forall (fun c : chunk => 0 < snd c)
             (spec_plan (write_page_size (self m) len) address len))
  /\ (write_page_size (self m) len = 16 -> address = 15 -> len = 2 ->
      spec_plan (write_page_size (self m) len) address len
      = [(15, 1); (16, 1)]).
Proof.
  intros Hmode Ha Hl Hrange Hps Hpos.
  set (eps := write_page_size (self m) len) in *.
  pose proof (write_chunks_plan eps address len Hps Ha Hl Hpos) as Hplan.
  pose proof (ceil_div_bounds (len + spec_offset eps address) eps ltac:(lia)) as Hc.
  fold (spec_chunk_count eps address len) in Hc.
  assert (Hcount : 0 < spec_chunk_count eps address len) by nia.
  repeat split.
  - unfold splits_by_plan. fold eps. rewrite <- Hplan.
    apply writeN_run; assumption.
  - unfold spec_plan. rewrite chunks_from_length. apply Z2Nat.id. lia.
  - rewrite <- Hplan. apply write_chunks_tiles; assumption.
  - intros Hlen. unfold spec_plan.
    pose proof (Z.mod_pos_bound address eps ltac:(lia)) as B.
    apply chunks_from_positive; unfold spec_offset in *; lia.
  - intros E -> ->. rewrite E. reflexivity.
Qed.

Lemma C1_write_splits_by_plan_witness :
  writeN 15 [0xA1; 0xA2] 2 (ready AT24C04 0 255) =
  Some (true,
        log_calls (ready AT24C04 0 255)
          [I2C_setAddress 0x50; I2C_write8 15 [0xA1]; HAL_delay_ms 5;
           I2C_setAddress 0x50; I2C_write8 16 [0xA2]; HAL_delay_ms 5])
  /\ spec_plan (write_page_size (self (ready AT24C04 0 255)) 2) 15 2
     = [(15, 1); (16, 1)].
Proof.
  destruct (C1_write_splits_by_plan (ready AT24C04 0 255) 15 [0xA1; 0xA2] 2)
    as (Hrun & _ & _ & _ & Hex).
  - vm_compute. discriminate.
  - unfold is_u16. lia.
  - unfold is_u16. lia.
  - vm_compute. discriminate.
  - vm_compute. split; reflexivity.
  - vm_compute. reflexivity.
  - split; [exact Hrun | apply Hex; reflexivity].
Defined.

(** C1 does not extend to an empty write at a page boundary: the plan of
    the specification has [ceil(0 / 8) = 0] chunks, the driver issues one
    (empty) bus write and one settle delay. *)
Lemma C1_zero_length_counterexample :
  _mode (self (ready AT24C02 0 255)) <> 0
  /\ 0 + 0 <= _chip_size (self (ready AT24C02 0 255))
  /\ spec_chunk_count (write_page_size (self (ready AT24C02 0 255)) 0) 0 0 = 0
  /\ writeN 0 [] 0 (ready AT24C02 0 255) =
     Some (true, log_calls (ready AT24C02 0 255)
                   [I2C_write8 0 []; HAL_delay_ms 5])
  /\ ~ splits_by_plan (ready AT24C02 0 255) 0 [] 0.
Proof.
  repeat split.
  - vm_compute. discriminate.
  - vm_compute. discriminate.
  - unfold splits_by_plan. vm_compute. discriminate.
Qed.

(** ** C2: address translation *)

(** C2, with the three-bit mask of the source: on an initialized chip
    with overflow bits and one address byte, every chunk of a write and every read within capacity
    is sent to bus address [(base & ~0x07) | ((a >> 8) & 0x07)] with the
    single address byte [a & 0xFF], where [a] is the logical address of
    the chunk or of the read: the folded field is three bits wide whatever
    the number [k] of overflow bits. It equals
    [(a >> 8) & ((1 << k) - 1)] for every address within a capacity of at
    most [256 * 2 ^ k] bytes. With base 0x50 and logical address 0x300
    the bus address is 0x53 and the address byte 0x00. *)
Theorem C2_address_translation m address vals len :
  _addr_ov_bits (self m) <> 0 ->
  _addr_bytes (self m) <= 1 ->
  is_u8 (_chip_addr (self m)) ->
  _mode (self m) <> 0 -> is_u16 address -> is_u16 len ->
  address + len <= _chip_size (self m) ->
  0 < _page_size (self m) < 256 ->
  writeN address vals len m =
  Some (true,
        log_calls m
          (flat_map
             (spec_chunk_calls 3 (_chip_addr (self m)) address vals)
             (write_chunks (_page_size (self m)) address len)))
  /\ readN address len m =
     Some (true,
           log_calls m (spec_read_calls 3 (_chip_addr (self m)) address len))
  /\ (0 < _addr_ov_bits (self m) <= 3 ->
      _chip_size (self m) <= 256 * 2 ^ _addr_ov_bits (self m) ->
      forall a, 0 <= a < _chip_size (self m) ->
        spec_bus_address 3 (_chip_addr (self m)) a
        = spec_bus_address (_addr_ov_bits (self m)) (_chip_addr (self m)) a)
  /\ (_chip_addr (self m) = 0x50 -> address = 0x300 ->
      spec_bus_address 3 (_chip_addr (self m)) address = 0x53
      /\ spec_in_chip_address address = 0x00).
Proof.
  intros Hk Hbytes Hbase Hmode Ha Hl Hrange Hps.
  assert (Ewps : write_page_size (self m) len = _page_size (self m)).
  { unfold write_page_size.
    destruct (Z.ltb_spec 1 (_addr_bytes (self m))); [lia | reflexivity]. }
  assert (Hb1 : (1 <? _addr_bytes (self m)) = false)
    by (apply Z.ltb_ge; exact Hbytes).
  pose proof (truthy_true _ Hk) as Hov.
  split; [|split; [|split]].
  - rewrite writeN_run by (rewrite ?Ewps; assumption).
    rewrite Ewps. do 3 f_equal. apply flat_map_ext. intros c.
    unfold chunk_calls, spec_chunk_calls, data_write.
    rewrite Hov, Hb1, u8_land, folded_bus_address_mask3 by exact Hbase.
    reflexivity.
  - rewrite readN_run by assumption.
    unfold read_calls, spec_read_calls.
    rewrite Hov, Hb1, u8_land, folded_bus_address_mask3 by exact Hbase.
    reflexivity.
  - intros Hk3 Hcap a Hin.
    rewrite <- folded_bus_address_mask3 by exact Hbase.
    apply folded_bus_address_spec; [exact Hbase | exact Hk3 | lia].
  - intros E ->. rewrite E. split; reflexivity.
Qed.

Lemma C2_address_translation_witness :
  writeN 0x300 [0xC1] 1 (ready AT24C16 0 255) =
  Some (true,
        log_calls (ready AT24C16 0 255)
          [I2C_setAddress 0x53; I2C_write8 0x00 [0xC1]; HAL_delay_ms 5])
  /\ readN 0x300 1 (ready AT24C16 0 255) =
     Some (true,
           log_calls (ready AT24C16 0 255)
             [I2C_setAddress 0x53; I2C_writeRead8 0x00 1]).
Proof.
  destruct (C2_address_translation (ready AT24C16 0 255) 0x300 [0xC1] 1)
    as (Hw & Hr & _).
  - vm_compute. discriminate.
  - vm_compute. discriminate.
  - vm_compute. split; [discriminate | reflexivity].
  - vm_compute. discriminate.
  - unfold is_u16. lia.
  - unfold is_u16. lia.
  - vm_compute. discriminate.
  - vm_compute. split; reflexivity.
  - split; [exact Hw | exact Hr].
Defined.

(** C2 with the [k]-bit mask does not hold on the profile of the
    specification's address-folding scenario (capacity 2048, page size 16, one address
    byte, two overflow bits) at logical address 0x500, within capacity:
    the source folds bit 10 of the address into the bus address (0x55),
    the two-bit mask of the stated formula does not (0x51). *)
Lemma C2_k_bit_mask_counterexample :
  _addr_ov_bits (self (ready (descriptor 2048 16 1 2) 0 255)) = 2
  /\ _addr_bytes (self (ready (descriptor 2048 16 1 2) 0 255)) = 1
  /\ _chip_addr (self (ready (descriptor 2048 16 1 2) 0 255)) = 0x50
  /\ 0x500 + 1 <= _chip_size (self (ready (descriptor 2048 16 1 2) 0 255))
  /\ readN 0x500 1 (ready (descriptor 2048 16 1 2) 0 255) =
     Some (true,
           log_calls (ready (descriptor 2048 16 1 2) 0 255)
             [I2C_setAddress 0x55; I2C_writeRead8 0x00 1])
  /\ spec_bus_address 2 0x50 0x500 = 0x51
  /\ ~ read_translated_by_k_bits (ready (descriptor 2048 16 1 2) 0 255) 0x500.
Proof.
  repeat split; try (vm_compute; discriminate).
Qed.

(** ** C3: requests beyond the capacity *)

(** C3: when [address + length] exceeds the capacity, [writeN] and [readN]
    return [false], make no HAL call and leave the driver as it was. *)
Theorem C3_out_of_range_rejected m address vals len :
  is_u16 address -> is_u16 len ->
  _chip_size (self m) < address + len ->
  writeN address vals len m = Some (false, m)
  /\ readN address len m = Some (false, m)
  /\ write address vals len m = Some (false, m)
  /\ write_str address vals len m = Some (false, m)
  /\ read address len m = Some (false, m)
  /\ read_str address len m = Some (false, m).
Proof.
  intros Ha Hl Hrange. unfold is_u16 in *.
  assert (G : truthy (_mode (self m))
              && (u32 (address + len) <=? _chip_size (self m)) = false).
  { rewrite u32_small by lia.
    destruct (Z.leb_spec (address + len) (_chip_size (self m))); [lia|].
    apply andb_false_r. }
  unfold write, write_str, read, read_str, writeN, readN.
  unfold bind, this. rewrite G. repeat split; reflexivity.
Qed.

Lemma C3_out_of_range_rejected_witness :
  writeN 250 [1; 2; 3; 4; 5; 6; 7] 7 (ready AT24C02 0 255)
  = Some (false, ready AT24C02 0 255)
  /\ readN 250 7 (ready AT24C02 0 255) = Some (false, ready AT24C02 0 255).
Proof.
  destruct (C3_out_of_range_rejected (ready AT24C02 0 255) 250
              [1; 2; 3; 4; 5; 6; 7] 7) as (Hw & Hr & _).
  - unfold is_u16. lia.
  - unfold is_u16. lia.
  - vm_compute. reflexivity.
  - split; assumption.
Defined.

(** ** C4: operations before init *)

(** C4 does not hold for the default write-protect pin: a device built
    with pin -1 and not initialized has a nonzero mode;
    a one-byte write returns [true] and reaches the bus, and so does a
    read. *)
Theorem C4_transfer_before_init :
  _mode (self (AT24CXX_new AT24C02 0 (-1))) = 255
  /\ write_byte 0 0x41 (AT24CXX_new AT24C02 0 (-1)) =
     Some (true,
           log_calls (AT24CXX_new AT24C02 0 (-1))
             [I2C_write8 0 [0x41]; HAL_delay_ms 5])
  /\ read 0 1 (AT24CXX_new AT24C02 0 (-1)) =
     Some (true,
           log_calls (AT24CXX_new AT24C02 0 (-1)) [I2C_writeRead8 0 1]).
Proof. repeat split. Qed.

(** ** C5: the effective page size *)

(** C5, with "if" for "if and only if": the page size [writeN] chunks by
    is 16 when the chip has
    more than one address byte and the request is longer than 30 bytes,
    and the chip's page size otherwise; hence it equals 16 exactly when
    that condition holds or the chip's own page size is 16. A write of 40
    bytes at address 20 on the profile (4096, 32, 2, 0) issues three bus
    writes, of 12, 16 and 12 bytes at addresses 20, 32 and 48. *)
Theorem C5_effective_page_size m address vals len :
  _mode (self m) <> 0 -> is_u16 address -> is_u16 len ->
  address + len <= _chip_size (self m) ->
  0 < write_page_size (self m) len < 256 ->
  write_page_size (self m) len
  = spec_effective_page_size (_page_size (self m)) (_addr_bytes (self m)) len
  /\ (write_page_size (self m) len = 16 <->
      (1 < _addr_bytes (self m) /\ 30 < len) \/ _page_size (self m) = 16)
  /\ writeN address vals len m =
     Some (true,
           log_calls m
             (flat_map (chunk_calls (self m) address vals)
                (write_chunks
                   (spec_effective_page_size (_page_size (self m))
                      (_addr_bytes (self m)) len)
                   address len)))
  /\ (_chip_size (self m) = 4096 -> _page_size (self m) = 32 ->
      _addr_bytes (self m) = 2 -> _addr_ov_bits (self m) = 0 ->
      address = 20 -> len = 40 ->
      write_chunks (write_page_size (self m) len) address len
      = [(20, 12); (32, 16); (48, 12)]
      /\ writeN address vals len m =
         Some (true,
               log_calls m
                 [I2C_write16 20 (slice vals 0 12); HAL_delay_ms 5;
                  I2C_write16 32 (slice vals 12 16); HAL_delay_ms 5;
                  I2C_write16 48 (slice vals 28 12); HAL_delay_ms 5])).
Proof.
  intros Hmode Ha Hl Hrange Hps.
  assert (E : write_page_size (self m) len
              = spec_effective_page_size (_page_size (self m))
                  (_addr_bytes (self m)) len).
  { unfold write_page_size, spec_effective_page_size.
    destruct (Z.ltb_spec 1 (_addr_bytes (self m))), (Z.ltb_spec 30 len),
      (Z_gt_dec (_addr_bytes (self m)) 1), (Z_gt_dec len 30);
      cbn [andb]; reflexivity || lia. }
  pose proof (writeN_run m address vals len Hmode Ha Hl Hrange Hps) as Hrun.
  split; [exact E|]. split; [|split].
  - unfold write_page_size.
    destruct (Z.ltb_spec 1 (_addr_bytes (self m))), (Z.ltb_spec 30 len);
      cbn [andb]; intuition lia.
  - rewrite <- E. exact Hrun.
  - intros Hsize Hpage Hbytes Hov -> ->.
    assert (E16 : write_page_size (self m) 40 = 16)
      by (unfold write_page_size; rewrite Hbytes; reflexivity).
    rewrite Hrun, E16. split; [reflexivity|].
    unfold chunk_calls, data_write. rewrite Hov, Hbytes. reflexivity.
Qed.

Lemma C5_effective_page_size_witness :
  write_page_size (self (ready AT24C32 0 255)) 40 = 16
  /\ writeN 20 (repeat 0xEE 40) 40 (ready AT24C32 0 255) =
     Some (true,
           log_calls (ready AT24C32 0 255)
             [I2C_write16 20 (repeat 0xEE 12); HAL_delay_ms 5;
              I2C_write16 32 (repeat 0xEE 16); HAL_delay_ms 5;
              I2C_write16 48 (repeat 0xEE 12); HAL_delay_ms 5]).
Proof.
  destruct (C5_effective_page_size (ready AT24C32 0 255) 20
              (repeat 0xEE 40) 40) as (_ & Hiff & _ & Hex).
  - vm_compute. discriminate.
  - unfold is_u16. lia.
  - unfold is_u16. lia.
  - vm_compute. discriminate.
  - vm_compute. split; reflexivity.
  - split.
    + apply Hiff. left. vm_compute. split; reflexivity.
    + apply Hex; reflexivity.
Defined.

(** C5 does not hold in the "only if" direction: on the AT24C04, with
    one address byte, every write is chunked by 16, the chip's own page
    size. *)
Lemma C5_iff_counterexample :
  write_page_size (self (ready AT24C04 0 255)) 1 = 16
  /\ ~ (1 < _addr_bytes (self (ready AT24C04 0 255)) /\ 30 < 1)
  /\ ~ (write_page_size (self (ready AT24C04 0 255)) 1 = 16 <->
        1 < _addr_bytes (self (ready AT24C04 0 255)) /\ 30 < 1).
Proof.
  split; [reflexivity|]. split.
  - intros [_ H]. lia.
  - intros [H _]. specialize (H eq_refl). lia.
Qed.

(** ** C6: the bus address of each chunk *)

(** C6: on a chip with address overflow bits, a write that passes the
    guard issues, for each chunk in order, [setAddress] with the bus
    address folded from that chunk's own logical address, then the data
    write, then the settle delay; the chunk addresses are the successive
    write pointers [address + bytes_sent] (each chunk starts where the
    previous one ends). *)
Theorem C6_bus_address_per_chunk m address vals len :
  _addr_ov_bits (self m) <> 0 ->
  _mode (self m) <> 0 -> is_u16 address -> is_u16 len ->
  address + len <= _chip_size (self m) ->
  0 < write_page_size (self m) len < 256 ->
  writeN address vals len m =
  Some (true,
        log_calls m
          (flat_map
             (fun c : chunk =>
                [I2C_setAddress (folded_bus_address (self m) (fst c));
                 data_write (self m) (fst c)
                            (slice vals (fst c - address) (snd c));
                 HAL_delay_ms EEPROM_WRITE_CYCLE_TIME_MS])
             (write_chunks (write_page_size (self m) len) address len)))
  /\ tiles address (address + len)
           (write_chunks (write_page_size (self m) len) address len).
Proof.
  intros Hov Hmode Ha Hl Hrange Hps. split.
  - rewrite writeN_run by assumption.
    do 3 f_equal. apply flat_map_ext. intros c.
    unfold chunk_calls. rewrite (truthy_true _ Hov). reflexivity.
  - apply write_chunks_tiles; assumption.
Qed.

Lemma C6_bus_address_per_chunk_witness :
  writeN 0x2FF [0xB1; 0xB2] 2 (ready AT24C16 0 255) =
  Some (true,
        log_calls (ready AT24C16 0 255)
          [I2C_setAddress 0x52; I2C_write8 0xFF [0xB1]; HAL_delay_ms 5;
           I2C_setAddress 0x53; I2C_write8 0x00 [0xB2]; HAL_delay_ms 5]).
Proof.
  destruct (C6_bus_address_per_chunk (ready AT24C16 0 255) 0x2FF
              [0xB1; 0xB2] 2) as (H & _).
  - vm_compute. discriminate.
  - vm_compute. discriminate.
  - unfold is_u16. lia.
  - unfold is_u16. lia.
  - vm_compute. discriminate.
  - vm_compute. split; reflexivity.
  - exact H.
Defined.

(** ** C7: write protect without a pin *)

(** C7 holds before [init()] only: a device built with the pin sentinel
    -1 makes no GPIO call in [setWriteProtect] before [init()];
    [init()] configures and drives GPIO 255, and afterwards
    [setWriteProtect] and [clearWriteProtect] drive it as well. *)
Theorem C7_unused_pin_driven_after_init chip chip_addr :
  setWriteProtect (AT24CXX_new chip chip_addr (-1))
  = Some (tt, AT24CXX_new chip chip_addr (-1))
  /\ hal (ready chip chip_addr (-1))
     = [I2C_init; GPIO_pinMode 255 OUTPUT; GPIO_digitalWrite 255 false]
  /\ setWriteProtect (ready chip chip_addr (-1))
     = Some (tt, log_calls (ready chip chip_addr (-1))
                   [GPIO_digitalWrite 255 true])
  /\ clearWriteProtect (ready chip chip_addr (-1))
     = Some (tt, log_calls (ready chip chip_addr (-1))
                   [GPIO_digitalWrite 255 false]).
Proof. repeat split. Qed.

(** ** C8: reads *)

(** C8: a read within capacity on an initialized device returns [true]
    and makes, besides the [setAddress] of a folding chip (computed once,
    at the starting address), exactly one HAL call: the combined
    write-address-then-read transaction for the whole length; no delay is
    issued. *)
Theorem C8_read_single_transaction m address len :
  _mode (self m) <> 0 -> is_u16 address -> is_u16 len ->
  address + len <= _chip_size (self m) ->
  readN address len m =
  Some (true,
        log_calls m
          ((if truthy (_addr_ov_bits (self m))
            then [I2C_setAddress (folded_bus_address (self m) address)]
            else [])
           ++ [if 1 <? _addr_bytes (self m)
               then I2C_writeRead16 (u16 address) len
               else I2C_writeRead8 (u8 address) len]))
  /\ read address len m = readN address len m
  /\ read_str address len m = readN address len m.
Proof.
  intros Hmode Ha Hl Hrange.
  split; [|split; reflexivity].
  rewrite readN_run by assumption. reflexivity.
Qed.

Lemma C8_read_single_transaction_witness :
  readN 0x2F0 0x110 (ready AT24C08 0 255) =
  Some (true,
        log_calls (ready AT24C08 0 255)
          [I2C_setAddress 0x52; I2C_writeRead8 0xF0 0x110])
  /\ readN 100 1000 (ready AT24C64 0 255) =
     Some (true,
           log_calls (ready AT24C64 0 255) [I2C_writeRead16 100 1000]).
Proof.
  split.
  - destruct (C8_read_single_transaction (ready AT24C08 0 255) 0x2F0 0x110)
      as (H & _).
    + vm_compute. discriminate.
    + unfold is_u16. lia.
    + unfold is_u16. lia.
    + vm_compute. discriminate.
    + exact H.
  - destruct (C8_read_single_transaction (ready AT24C64 0 255) 100 1000)
      as (H & _).
    + vm_compute. discriminate.
    + unfold is_u16. lia.
    + unfold is_u16. lia.
    + vm_compute. discriminate.
    + exact H.
Defined.

(** ** C9: the chip selection constants *)

(** C9: each of the ten chip selection constants is decoded by the
    constructor into fields that satisfy the profile invariants, whatever
    the chip address and the write-protect pin. *)
Theorem C9_chip_table_profiles chip_addr wp_pin :
  Forall (fun chip => profile_ok (self (AT24CXX_new chip chip_addr wp_pin)))
         chip_table.
Proof.
  unfold chip_table, profile_ok.
  repeat (apply Forall_cons; [vm_compute; intuition (discriminate || congruence)|]).
  apply Forall_nil.
Qed.

(** ** C10: transfers of length 0 *)

(** C10: on an initialized device whose page holds more than one byte, a
    write of length 0 at an address not above the capacity is neither
    rejected nor skipped: line 133 yields one page, [writeN] returns
    [true] and issues (after the [setAddress] of a folding chip) one
    empty bus write and one settle delay; a read of length 0 returns
    [true] and issues one combined transaction of length 0. *)
Theorem C10_zero_length_transfers m address vals :
  _mode (self m) <> 0 -> is_u16 address ->
  address <= _chip_size (self m) ->
  1 < _page_size (self m) < 256 ->
  pages_req (write_page_size (self m) 0) address 0 = 1
  /\ writeN address vals 0 m =
     Some (true,
           log_calls m
             ((if truthy (_addr_ov_bits (self m))
               then [I2C_setAddress (folded_bus_address (self m) address)]
               else [])
              ++ [data_write (self m) address [];
                  HAL_delay_ms EEPROM_WRITE_CYCLE_TIME_MS]))
  /\ readN address 0 m =
     Some (true,
           log_calls m
             ((if truthy (_addr_ov_bits (self m))
               then [I2C_setAddress (folded_bus_address (self m) address)]
               else [])
              ++ [if 1 <? _addr_bytes (self m)
                  then I2C_writeRead16 (u16 address) 0
                  else I2C_writeRead8 (u8 address) 0])).
Proof.
  intros Hmode Ha Hrange Hps.
  assert (Hl : is_u16 0) by (unfold is_u16; lia).
  assert (Ewps : write_page_size (self m) 0 = _page_size (self m)).
  { unfold write_page_size. rewrite andb_false_r. reflexivity. }
  pose proof (pages_req_empty (_page_size (self m)) address Hps Ha) as Hone.
  split; [rewrite Ewps; exact Hone|]. split.
  - rewrite writeN_run by (rewrite ?Ewps; lia || assumption).
    rewrite Ewps. unfold write_chunks. rewrite Hone.
    change (Z.to_nat 1) with 1%nat.
    cbn [chunks_from flat_map]. rewrite app_nil_r.
    unfold chunk_calls. cbn [fst snd].
    rewrite Z.add_0_r.
    assert (Hsz : Z.min (_page_size (self m)
                         - u8 (Z.rem address (_page_size (self m)))) (0 - 0) = 0).
    { destruct (rem_offset (_page_size (self m)) address ltac:(lia) Ha)
        as [-> ?]. lia. }
    rewrite Hsz. reflexivity.
  - rewrite readN_run by (assumption || lia). reflexivity.
Qed.

Lemma C10_zero_length_transfers_witness :
  writeN 64 [] 0 (ready AT24C02 0 255) =
  Some (true, log_calls (ready AT24C02 0 255)
                [I2C_write8 64 []; HAL_delay_ms 5])
  /\ readN 256 0 (ready AT24C02 0 255) =
     Some (true, log_calls (ready AT24C02 0 255) [I2C_writeRead8 0 0]).
Proof.
  split.
  - destruct (C10_zero_length_transfers (ready AT24C02 0 255) 64 [])
      as (_ & H & _).
    + vm_compute. discriminate.
    + unfold is_u16. lia.
    + vm_compute. discriminate.
    + vm_compute. split; reflexivity.
    + exact H.
  - destruct (C10_zero_length_transfers (ready AT24C02 0 255) 256 [])
      as (_ & _ & H).
    + vm_compute. discriminate.
    + unfold is_u16. lia.
    + vm_compute. discriminate.
    + vm_compute. split; reflexivity.
    + exact H.
Defined.

(** * Further properties of the driver *)

(** ** What a transfer leaves alone *)

Lemma writeN_loop_frame n :
  forall address vals len page_size bytes_sent offset m,
  exists l,
    writeN_loop n address vals len page_size bytes_sent offset m
    = Some (tt, log_calls m l)
    /\ Forall (transfer_call (self m)) l.
Proof.
  induction n as [|n IH]; intros address vals len ps sent off m.
  - exists []. split; [|constructor].
    cbn. unfold ret, log_calls. rewrite app_nil_r. destruct m; reflexivity.
  - cbn [writeN_loop]. unfold bind at 1. unfold this at 1.
    unfold bind at 1.
    set (sz := u8 (if ps - off <? len - sent then ps - off else len - sent)).
    set (m1 := log_calls m
                 (if truthy (_addr_ov_bits (self m))
                  then [I2C_setAddress (folded_bus_address (self m) (address + sent))]
                  else [])).
    assert (E1 : (if truthy (_addr_ov_bits (self m))
                  then call (I2C_setAddress (folded_bus_address (self m) (address + sent)))
                  else skip) m = Some (tt, m1)).
    { unfold m1, log_calls, call, skip, ret.
      destruct (truthy (_addr_ov_bits (self m))); [reflexivity|].
      rewrite app_nil_r. destruct m; reflexivity. }
    rewrite E1. unfold bind at 1.
    set (w := data_write (self m) (address + sent) (slice vals sent sz)).
    assert (E2 : (if 1 <? _addr_bytes (self m)
                  then call (I2C_write16 (u16 (address + sent)) (slice vals sent sz))
                  else call (I2C_write8 (u8 (address + sent)) (slice vals sent sz))) m1
                 = Some (tt, log_calls m1 [w])).
    { unfold w, data_write, call, log_calls. cbn [self m1 log_calls].
      destruct (1 <? _addr_bytes (self m)); reflexivity. }
    rewrite E2. unfold bind at 1. unfold call at 1.
    destruct (IH address vals len ps (u16 (sent + sz)) 0
                (mkMachine (self (log_calls m1 [w]))
                   (hal (log_calls m1 [w])
                    ++ [HAL_delay_ms EEPROM_WRITE_CYCLE_TIME_MS])))
      as (l & El & Fl).
    rewrite El. cbn [self hal log_calls m1] in *.
    eexists. split.
    + unfold log_calls. cbn [self hal]. repeat rewrite <- app_assoc. reflexivity.
    + apply Forall_app. split.
      * unfold truthy. destruct (Z.eqb_spec (_addr_ov_bits (self m)) 0);
          cbn [negb]; constructor; [exact n0 | constructor].
      * constructor; [unfold w, data_write;
                      destruct (1 <? _addr_bytes (self m)); exact I|].
        constructor; [exact I | exact Fl].
Qed.

Lemma writeN_frame address vals len m r m' :
  writeN address vals len m = Some (r, m') ->
  exists l, m' = log_calls m l /\ Forall (transfer_call (self m)) l.
Proof.
  unfold writeN. unfold bind at 1. unfold this at 1.
  destruct (truthy (_mode (self m))
            && (u32 (address + len) <=? _chip_size (self m))).
  - unfold c_rem, c_div.
    destruct (write_page_size (self m) len =? 0); [discriminate|].
    unfold bind at 1. unfold ret at 1.
    unfold bind at 1. unfold ret at 1.
    unfold bind at 1.
    match goal with
    | |- context [writeN_loop ?n ?a ?v ?l ?p ?b ?o m] =>
        destruct (writeN_loop_frame n a v l p b o m) as (cs & E & F)
    end.
    rewrite E. unfold ret. intros H. injection H as <- <-.
    exists cs. split; [reflexivity | exact F].
  - unfold ret. intros H. injection H as <- <-.
    exists []. split; [|constructor].
    unfold log_calls. rewrite app_nil_r. destruct m; reflexivity.
Qed.

Lemma readN_frame address len m r m' :
  readN address len m = Some (r, m') ->
  exists l, m' = log_calls m l /\ Forall (transfer_call (self m)) l.
Proof.
  unfold readN. unfold bind at 1. unfold this at 1.
  destruct (truthy (_mode (self m))
            && (u32 (address + len) <=? _chip_size (self m))).
  - unfold bind, call, skip, ret, truthy.
    destruct (Z.eqb_spec (_addr_ov_bits (self m)) 0) as [E0|N0]; cbn [negb];
      destruct (1 <? _addr_bytes (self m)); cbn [self hal];
      intros H; injection H as <- <-;
      eexists; (split; [unfold log_calls; rewrite <- ?app_assoc; reflexivity|]);
      repeat constructor; assumption.
  - unfold ret. intros H. injection H as <- <-.
    exists []. split; [|constructor].
    unfold log_calls. rewrite app_nil_r. destruct m; reflexivity.
Qed.

Lemma transfer_call_not_setAddress d l :
  _addr_ov_bits d = 0 -> Forall (transfer_call d) l ->
  Forall (fun c => is_setAddress c = false) l.
Proof.
  intros H0 F. eapply Forall_impl; [|exact F].
  intros [] Hc; cbn in *; congruence.
Qed.

Lemma same_profile_refl d : same_profile d d.
Proof. unfold same_profile. intuition reflexivity. Qed.

Lemma same_profile_trans d1 d2 d3 :
  same_profile d1 d2 -> same_profile d2 d3 -> same_profile d1 d3.
Proof. unfold same_profile. intuition congruence. Qed.

Lemma same_profile_set_mode d v : same_profile d (set_mode d v).
Proof. unfold same_profile, set_mode. cbn. intuition reflexivity. Qed.

(** One public call: the profile is kept, the log grows, mode 2 stays,
    and without overflow bits no [setAddress] is made. *)
Lemma do_call_step c m m' :
  do_call c m = Some (tt, m') ->
  same_profile (self m) (self m')
  /\ (_mode (self m) = 2 -> _mode (self m') = 2)
  /\ exists l, hal m' = hal m ++ l
               /\ (_addr_ov_bits (self m) = 0 ->
                   Forall (fun c => is_setAddress c = false) l).
Proof.
  assert (Hframe : forall l, Forall (transfer_call (self m)) l ->
            m' = log_calls m l ->
            same_profile (self m) (self m')
            /\ (_mode (self m) = 2 -> _mode (self m') = 2)
            /\ exists l, hal m' = hal m ++ l
                         /\ (_addr_ov_bits (self m) = 0 ->
                             Forall (fun c => is_setAddress c = false) l)).
  { intros l F ->. cbn [log_calls self hal].
    split; [apply same_profile_refl|]. split; [tauto|].
    exists l. split; [reflexivity|].
    intros H0. eapply transfer_call_not_setAddress; eassumption. }
  assert (Hdrop : forall (op : M bool),
            (forall r m1, op m = Some (r, m1) ->
               exists l, m1 = log_calls m l /\ Forall (transfer_call (self m)) l) ->
            (op ;; ret tt) m = Some (tt, m') ->
            exists l, m' = log_calls m l /\ Forall (transfer_call (self m)) l).
  { intros op Hop. unfold bind, ret.
    destruct (op m) as [[r m1]|]; [|discriminate].
    intros H. injection H as <-. eapply Hop; reflexivity. }
  destruct c as [|a v|a vs n|a|a n| |]; cbn [do_call]; intros H.
  - (* init *)
    unfold init, bind, call, this, assign_mode in H. cbn [self hal] in H.
    destruct (Z.eqb_spec (_mode (self m)) (-1)) as [E|N]; cbn [negb] in H;
      injection H as <-; cbn [self hal].
    + split; [apply same_profile_set_mode|]. split; [lia|].
      eexists. split; [reflexivity|]. intros _. repeat constructor.
    + split; [apply same_profile_set_mode|]. split; [reflexivity|].
      eexists. split; [repeat rewrite <- app_assoc; reflexivity|].
      intros _. repeat constructor.
  - destruct (Hdrop (write_byte a v)) as (l & E & F); [|exact H|eauto].
    intros r m1. apply writeN_frame.
  - destruct (Hdrop (write a vs n)) as (l & E & F); [|exact H|eauto].
    intros r m1. apply writeN_frame.
  - destruct (Hdrop (readN a 1)) as (l & E & F); [|exact H|eauto].
    intros r m1. apply readN_frame.
  - destruct (Hdrop (read a n)) as (l & E & F); [|exact H|eauto].
    intros r m1. apply readN_frame.
  - unfold setWriteProtect, bind, this, call, skip, ret in H.
    destruct (2 =? _mode (self m)); injection H as <-; cbn [self hal].
    + split; [apply same_profile_refl|]. split; [tauto|].
      eexists. split; [reflexivity|]. intros _. repeat constructor.
    + split; [apply same_profile_refl|]. split; [tauto|].
      exists []. split; [rewrite app_nil_r; reflexivity | constructor].
  - unfold clearWriteProtect, bind, this, call, skip, ret in H.
    destruct (2 =? _mode (self m)); injection H as <-; cbn [self hal].
    + split; [apply same_profile_refl|]. split; [tauto|].
      eexists. split; [reflexivity|]. intros _. repeat constructor.
    + split; [apply same_profile_refl|]. split; [tauto|].
      exists []. split; [rewrite app_nil_r; reflexivity | constructor].
Qed.

Lemma do_calls_steps cs :
  forall m m',
    do_calls cs m = Some (tt, m') ->
    same_profile (self m) (self m')
    /\ (_mode (self m) = 2 -> _mode (self m') = 2)
    /\ exists l, hal m' = hal m ++ l
                 /\ (_addr_ov_bits (self m) = 0 ->
                     Forall (fun c => is_setAddress c = false) l).
Proof.
  induction cs as [|c cs IH]; intros m m' H.
  - cbn in H. unfold ret in H. injection H as <-.
    split; [apply same_profile_refl|]. split; [tauto|].
    exists []. split; [rewrite app_nil_r; reflexivity | constructor].
  - cbn [do_calls] in H. unfold bind in H.
    destruct (do_call c m) as [[[] m1]|] eqn:E1; [|discriminate].
    destruct (do_call_step c m m1 E1) as (P1 & M1 & l1 & L1 & S1).
    destruct (IH m1 m' H) as (P2 & M2 & l2 & L2 & S2).
    split; [eapply same_profile_trans; eassumption|]. split; [tauto|].
    exists (l1 ++ l2). split; [rewrite L2, L1, app_assoc; reflexivity|].
    intros H0. apply Forall_app. split; [auto|].
    apply S2. destruct P1 as (_ & _ & _ & _ & _ & -> & _). exact H0.
Qed.

(** X1: whatever sequence of public calls a client makes, the chip
    profile, the bus base address and the pin number stay as they are,
    the HAL log only grows, and a driver in mode 2 stays in mode 2. *)
Theorem client_keeps_profile cs m m' :
  do_calls cs m = Some (tt, m') ->
  same_profile (self m) (self m')
  /\ (exists l, hal m' = hal m ++ l)
  /\ (_mode (self m) = 2 -> _mode (self m') = 2).
Proof.
  intros H. destruct (do_calls_steps cs m m' H) as (P & Md & l & L & _).
  split; [exact P|]. split; [exists l; exact L | exact Md].
Qed.

Lemma client_keeps_profile_witness :
  same_profile
    (self (AT24CXX_new AT24C16 3 9))
    (self (after (do_calls [Call_init; Call_write 0x2FF [1; 2] 2;
                            Call_setWriteProtect; Call_read 0 16;
                            Call_init; Call_write_byte 5000 1])
                 (AT24CXX_new AT24C16 3 9)))
  /\ _mode (self (after (do_calls [Call_init; Call_write 0x2FF [1; 2] 2;
                                   Call_setWriteProtect; Call_read 0 16;
                                   Call_init; Call_write_byte 5000 1])
                        (AT24CXX_new AT24C16 3 9))) = 2.
Proof.
  destruct (client_keeps_profile
              [Call_init; Call_write 0x2FF [1; 2] 2;
               Call_setWriteProtect; Call_read 0 16;
               Call_init; Call_write_byte 5000 1]
              (AT24CXX_new AT24C16 3 9)
              (after (do_calls [Call_init; Call_write 0x2FF [1; 2] 2;
                                Call_setWriteProtect; Call_read 0 16;
                                Call_init; Call_write_byte 5000 1])
                     (AT24CXX_new AT24C16 3 9)))
    as (P & _ & _).
  - vm_compute. reflexivity.
  - split; [exact P | vm_compute; reflexivity].
Defined.

(** X2: on a chip without address overflow bits no sequence of public
    calls makes the driver call [setAddress]: the bus address the
    constructor computes is never handed to the transport. *)
Theorem client_never_sets_address cs m m' :
  _addr_ov_bits (self m) = 0 ->
  do_calls cs m = Some (tt, m') ->
  exists l, hal m' = hal m ++ l
            /\ Forall (fun c => is_setAddress c = false) l.
Proof.
  intros H0 H. destruct (do_calls_steps cs m m' H) as (_ & _ & l & L & S).
  exists l. split; [exact L | exact (S H0)].
Qed.

Lemma client_never_sets_address_witness :
  exists l,
    hal (after (do_calls [Call_init; Call_write 30 (repeat 7 40) 40;
                          Call_read 0 64])
               (AT24CXX_new AT24C64 5 255))
    = hal (AT24CXX_new AT24C64 5 255) ++ l
    /\ Forall (fun c => is_setAddress c = false) l.
Proof.
  apply (client_never_sets_address
           [Call_init; Call_write 30 (repeat 7 40) 40; Call_read 0 64]
           (AT24CXX_new AT24C64 5 255)).
  - vm_compute. reflexivity.
  - vm_compute. reflexivity.
Defined.

(** X3: a read or a write, accepted or rejected, leaves the driver object
    as it is and calls nothing but [setAddress] (on a chip with overflow
    bits), bus writes, combined write-reads and delays: it never touches
    the write-protect pin and never re-initializes the transport. *)
Theorem transfer_frame address vals len m r m' :
  writeN address vals len m = Some (r, m')
  \/ readN address len m = Some (r, m') ->
  exists l, m' = log_calls m l /\ Forall (transfer_call (self m)) l.
Proof.
  intros [H|H]; [eapply writeN_frame | eapply readN_frame]; exact H.
Qed.

Lemma transfer_frame_witness :
  exists l,
    after (writeN 15 [1; 2] 2) (ready AT24C04 0 7)
    = log_calls (ready AT24C04 0 7) l
    /\ Forall (transfer_call (self (ready AT24C04 0 7))) l.
Proof.
  apply (transfer_frame 15 [1; 2] 2 (ready AT24C04 0 7) true).
  left. vm_compute. reflexivity.
Defined.

(** ** The data and the shape of the chunks *)

Lemma firstn_add_skipn {A} (a b : nat) (l : list A) :
  firstn (a + b) l = firstn a l ++ firstn b (skipn a l).
Proof.
  revert l. induction a as [|a IH]; intros l; [reflexivity|].
  destruct l as [|x l]; cbn [Nat.add firstn skipn app].
  - destruct b; reflexivity.
  - rewrite IH. reflexivity.
Qed.

Lemma chunks_from_data n :
  forall address len page_size bytes_sent offset (vals : list Z),
    0 <= offset < page_size -> 0 <= bytes_sent <= len ->
    len - bytes_sent + offset <= Z.of_nat n * page_size ->
    concat (map (fun c : chunk => slice vals (fst c - address) (snd c))
                (chunks_from n address len page_size bytes_sent offset))
    = firstn (Z.to_nat (len - bytes_sent)) (skipn (Z.to_nat bytes_sent) vals).
Proof.
  induction n as [|n IH]; intros address len ps sent off vals Ho Hs Hn.
  - cbn. replace (len - sent) with 0 by lia. reflexivity.
  - cbn [chunks_from map concat fst snd].
    rewrite Nat2Z.inj_succ in Hn.
    set (sz := Z.min (ps - off) (len - sent)).
    assert (Hsz : 0 <= sz <= len - sent) by (unfold sz; lia).
    rewrite IH; [| lia | lia |].
    + replace (address + sent - address) with sent by lia.
      unfold slice.
      replace (Z.to_nat (len - sent))
        with (Z.to_nat sz + Z.to_nat (len - (sent + sz)))%nat by lia.
      rewrite firstn_add_skipn, skipn_skipn.
      replace (Z.to_nat sz + Z.to_nat sent)%nat with (Z.to_nat (sent + sz)) by lia.
      reflexivity.
    + unfold sz. destruct (Z_lt_le_dec (ps - off) (len - sent)).
      * rewrite Z.min_l by lia. lia.
      * rewrite Z.min_r by lia. nia.
Qed.

Lemma written_data_app l1 l2 :
  written_data (l1 ++ l2) = written_data l1 ++ written_data l2.
Proof. unfold written_data. apply flat_map_app. Qed.

Lemma written_data_chunk_calls d address vals cs :
  written_data (flat_map (chunk_calls d address vals) cs)
  = concat (map (fun c : chunk => slice vals (fst c - address) (snd c)) cs).
Proof.
  induction cs as [|c cs IH]; [reflexivity|].
  cbn [flat_map map concat]. rewrite written_data_app, IH. f_equal.
  unfold chunk_calls, data_write.
  destruct (truthy (_addr_ov_bits d)), (1 <? _addr_bytes d);
    cbn; rewrite app_nil_r; reflexivity.
Qed.

(** Each chunk stays inside one page and holds at most a page and at most
    the request. *)
Lemma chunks_from_in_page n :
  forall address len page_size bytes_sent offset,
    0 <= offset < page_size -> 0 <= bytes_sent <= len ->
    (address + bytes_sent) mod page_size = offset \/ bytes_sent = len ->
    Forall (fun c : chunk =>
              0 <= snd c <= page_size /\ snd c <= len
              /\ fst c mod page_size + snd c <= page_size)
           (chunks_from n address len page_size bytes_sent offset).
Proof.
  induction n as [|n IH]; intros address len ps sent off Ho Hs Hinv.
  - constructor.
  - cbn [chunks_from].
    pose proof (Z.mod_pos_bound (address + sent) ps ltac:(lia)) as B.
    constructor.
    + cbn [fst snd]. destruct Hinv as [E|E]; lia.
    + apply IH; [lia | lia |].
      destruct (Z_lt_le_dec (len - sent) (ps - off)) as [Hlt|Hge].
      * right. lia.
      * destruct Hinv as [E|E]; [left | right; lia].
        rewrite Z.min_l by lia.
        pose proof (Z.div_mod (address + sent) ps ltac:(lia)) as D.
        replace (address + (sent + (ps - off)))
          with (((address + sent) / ps + 1) * ps) by lia.
        apply Z_mod_mult.
Qed.

(** A chunk inside a page of size [e] is inside a page of any multiple of
    [e]. *)
Lemma in_page_coarser a s e P :
  0 < e -> 0 < P -> P mod e = 0 ->
  a mod e + s <= e -> a mod P + s <= P.
Proof.
  intros He HP Hdiv Hin.
  pose proof (Z.div_mod P e ltac:(lia)) as D. rewrite Hdiv in D.
  assert (Hk : 0 < P / e) by nia.
  replace P with (e * (P / e)) at 1 by lia.
  rewrite Z.rem_mul_r by lia.
  pose proof (Z.mod_pos_bound (a / e) (P / e) Hk) as B.
  nia.
Qed.

Lemma delay_total_app l1 l2 :
  delay_total (l1 ++ l2) = delay_total l1 + delay_total l2.
Proof.
  induction l1 as [|c l1 IH]; [reflexivity|].
  cbn [app delay_total fold_right]. fold (delay_total (l1 ++ l2)).
  fold (delay_total l1). rewrite IH. destruct c; lia.
Qed.

Lemma delay_total_chunk_calls d address vals cs :
  delay_total (flat_map (chunk_calls d address vals) cs)
  = EEPROM_WRITE_CYCLE_TIME_MS * Z.of_nat (length cs).
Proof.
  induction cs as [|c cs IH]; [reflexivity|].
  cbn [flat_map length]. rewrite delay_total_app, IH, Nat2Z.inj_succ.
  unfold chunk_calls, data_write, EEPROM_WRITE_CYCLE_TIME_MS.
  destruct (truthy (_addr_ov_bits d)), (1 <? _addr_bytes d);
    cbn [app delay_total fold_right]; lia.
Qed.

Lemma pages_req_bound page_size address len :
  0 < page_size < 256 -> is_u16 address -> is_u16 len ->
  pages_req page_size address len * page_size <= len + 2 * page_size - 2.
Proof.
  intros Hp Ha Hl.
  pose proof (Z.mod_pos_bound address page_size ltac:(lia)) as B.
  destruct (Z_lt_le_dec 0 (len + address mod page_size)) as [Hpos|Hz].
  - rewrite pages_req_ceil by assumption.
    pose proof (ceil_div_bounds (len + address mod page_size) page_size
                  ltac:(lia)) as Hc.
    unfold spec_chunk_count, spec_offset. nia.
  - assert (len = 0) by (unfold is_u16 in *; lia). subst len.
    destruct (Z.eq_dec page_size 1) as [->|H1].
    + unfold pages_req. rewrite Z.rem_1_r. vm_compute. discriminate.
    + rewrite pages_req_empty by (assumption || lia). lia.
Qed.

(** X4: an accepted write hands the first [len] bytes of the caller's
    buffer to the transport, each byte once, in order. *)
Theorem write_sends_buffer m address vals len :
  _mode (self m) <> 0 -> is_u16 address -> is_u16 len ->
  address + len <= _chip_size (self m) ->
  0 < write_page_size (self m) len < 256 ->
  exists l,
    writeN address vals len m = Some (true, log_calls m l)
    /\ written_data l = firstn (Z.to_nat len) vals.
Proof.
  intros Hmode Ha Hl Hrange Hps.
  eexists. split; [apply writeN_run; assumption|].
  rewrite written_data_chunk_calls. unfold write_chunks.
  destruct (rem_offset _ _ Hps Ha) as [Hoff Hb].
  pose proof (pages_req_enough _ _ _ Hps Ha Hl) as He.
  pose proof (pages_req_nonneg (write_page_size (self m) len) address len) as Hn.
  rewrite Hoff, chunks_from_data by (unfold is_u16 in *; lia).
  rewrite Z.sub_0_r. reflexivity.
Qed.

Lemma write_sends_buffer_witness :
  exists l,
    writeN 20 (map Z.of_nat (seq 100 40)) 40 (ready AT24C32 0 255)
    = Some (true, log_calls (ready AT24C32 0 255) l)
    /\ written_data l = firstn (Z.to_nat 40) (map Z.of_nat (seq 100 40)).
Proof.
  apply (write_sends_buffer (ready AT24C32 0 255) 20
           (map Z.of_nat (seq 100 40)) 40).
  - vm_compute. discriminate.
  - unfold is_u16. lia.
  - unfold is_u16. lia.
  - vm_compute. discriminate.
  - vm_compute. split; reflexivity.
Defined.

(** X5: no chunk of an accepted write crosses a boundary of the page size
    the write is chunked by, and none is larger than that page; when that
    size divides the chip's page size (as the 16 of line 128 divides 32,
    64 and 128), no chunk crosses a page boundary of the chip either. *)
Theorem write_chunks_within_pages m address vals len :
  _mode (self m) <> 0 -> is_u16 address -> is_u16 len ->
  address + len <= _chip_size (self m) ->
  0 < write_page_size (self m) len < 256 ->
  writeN address vals len m =
  Some (true,
        log_calls m
          (flat_map (chunk_calls (self m) address vals)
             (write_chunks (write_page_size (self m) len) address len)))
  /\ Forall (fun c : chunk =>
               0 <= snd c <= write_page_size (self m) len
               /\ fst c mod write_page_size (self m) len + snd c
                  <= write_page_size (self m) len
               /\ (0 < _page_size (self m) ->
                   _page_size (self m) mod write_page_size (self m) len = 0 ->
                   fst c mod _page_size (self m) + snd c
                   <= _page_size (self m)))
            (write_chunks (write_page_size (self m) len) address len).
Proof.
  intros Hmode Ha Hl Hrange Hps.
  split; [apply writeN_run; assumption|].
  destruct (rem_offset _ _ Hps Ha) as [Hoff Hb].
  unfold write_chunks. rewrite Hoff.
  eapply Forall_impl;
    [|apply chunks_from_in_page;
      [exact Hb | unfold is_u16 in *; lia | left; rewrite Z.add_0_r; reflexivity]].
  cbn beta. intros c (Hs & _ & Hin).
  split; [exact Hs|]. split; [exact Hin|].
  intros HP Hdiv. eapply in_page_coarser; [| exact HP | exact Hdiv | exact Hin].
  lia.
Qed.

Lemma write_chunks_within_pages_witness :
  Forall (fun c : chunk =>
            0 <= snd c <= 16 /\ fst c mod 16 + snd c <= 16
            /\ fst c mod 32 + snd c <= 32)
         [(20, 12); (32, 16); (48, 12)].
Proof.
  destruct (write_chunks_within_pages (ready AT24C32 0 255) 20
              (repeat 0 40) 40) as (_ & F).
  - vm_compute. discriminate.
  - unfold is_u16. lia.
  - unfold is_u16. lia.
  - vm_compute. discriminate.
  - vm_compute. split; reflexivity.
  - eapply Forall_impl; [|exact F].
    cbn beta. intros c (H1 & H2 & H3).
    split; [exact H1|]. split; [exact H2|].
    apply H3; vm_compute; reflexivity.
Defined.

(** X6: on a chip with more than one address byte no bus write of an
    accepted request carries more than 30 bytes (the limit named at
    line 128). *)
Theorem two_byte_chip_writes_at_most_30 m address vals len :
  1 < _addr_bytes (self m) ->
  _mode (self m) <> 0 -> is_u16 address -> is_u16 len ->
  address + len <= _chip_size (self m) ->
  0 < write_page_size (self m) len < 256 ->
  exists l,
    writeN address vals len m = Some (true, log_calls m l)
    /\ Forall (fun c => match c with
                        | I2C_write8 _ data | I2C_write16 _ data =>
                            (length data <= 30)%nat
                        | _ => True
                        end) l.
Proof.
  intros Hbytes Hmode Ha Hl Hrange Hps.
  eexists. split; [apply writeN_run; assumption|].
  apply Forall_flat_map.
  destruct (rem_offset _ _ Hps Ha) as [Hoff Hb].
  assert (Hcap : write_page_size (self m) len <= 16 \/ len <= 30).
  { unfold write_page_size.
    destruct (Z.ltb_spec 1 (_addr_bytes (self m))); [|lia].
    destruct (Z.ltb_spec 30 len); cbn [andb]; lia. }
  unfold write_chunks. rewrite Hoff.
  eapply Forall_impl;
    [|apply chunks_from_in_page;
      [exact Hb | unfold is_u16 in *; lia | left; rewrite Z.add_0_r; reflexivity]].
  cbn beta. intros c (Hs & Hlen & _).
  assert (Hdata : (length (slice vals (fst c - address) (snd c)) <= 30)%nat).
  { unfold slice. rewrite length_firstn. lia. }
  unfold chunk_calls, data_write.
  destruct (truthy (_addr_ov_bits (self m))), (1 <? _addr_bytes (self m));
    cbn [app];
    repeat (apply Forall_cons; [first [exact I | exact Hdata]|]);
    apply Forall_nil.
Qed.

Lemma two_byte_chip_writes_at_most_30_witness :
  exists l,
    writeN 3 (repeat 0x5A 100) 100 (ready AT24C256 0 255)
    = Some (true, log_calls (ready AT24C256 0 255) l)
    /\ Forall (fun c => match c with
                        | I2C_write8 _ data | I2C_write16 _ data =>
                            (length data <= 30)%nat
                        | _ => True
                        end) l.
Proof.
  apply (two_byte_chip_writes_at_most_30 (ready AT24C256 0 255) 3
           (repeat 0x5A 100) 100).
  - vm_compute. reflexivity.
  - vm_compute. discriminate.
  - unfold is_u16. lia.
  - unfold is_u16. lia.
  - vm_compute. discriminate.
  - vm_compute. split; reflexivity.
Defined.

(** X7: an accepted write waits the write-cycle time once per chunk:
    [5 * pages_req] milliseconds in all, where the number of chunks
    satisfies [pages_req * page <= len + 2 * page - 2]. *)
Theorem write_delay_per_chunk m address vals len :
  _mode (self m) <> 0 -> is_u16 address -> is_u16 len ->
  address + len <= _chip_size (self m) ->
  0 < write_page_size (self m) len < 256 ->
  exists l,
    writeN address vals len m = Some (true, log_calls m l)
    /\ delay_total l
       = 5 * pages_req (write_page_size (self m) len) address len
    /\ pages_req (write_page_size (self m) len) address len
       * write_page_size (self m) len
       <= len + 2 * write_page_size (self m) len - 2.
Proof.
  intros Hmode Ha Hl Hrange Hps.
  eexists. split; [apply writeN_run; assumption|]. split.
  - rewrite delay_total_chunk_calls. unfold write_chunks.
    rewrite chunks_from_length, Z2Nat.id by apply pages_req_nonneg.
    reflexivity.
  - apply pages_req_bound; assumption.
Qed.

Lemma write_delay_per_chunk_witness :
  exists l,
    writeN 20 (repeat 0 40) 40 (ready AT24C32 0 255)
    = Some (true, log_calls (ready AT24C32 0 255) l)
    /\ delay_total l = 15.
Proof.
  destruct (write_delay_per_chunk (ready AT24C32 0 255) 20 (repeat 0 40) 40)
    as (l & Hrun & Hd & _).
  - vm_compute. discriminate.
  - unfold is_u16. lia.
  - unfold is_u16. lia.
  - vm_compute. discriminate.
  - vm_compute. split; reflexivity.
  - exists l. split; [exact Hrun | exact Hd].
Defined.

(** ** Results and single bytes *)

Lemma out_of_range_run m address vals len :
  is_u16 address -> is_u16 len ->
  _chip_size (self m) < address + len ->
  writeN address vals len m = Some (false, m)
  /\ readN address len m = Some (false, m).
Proof.
  intros Ha Hl Hrange. unfold is_u16 in *.
  unfold writeN, readN, bind, this. rewrite u32_small by lia.
  destruct (Z.leb_spec (address + len) (_chip_size (self m))); [lia|].
  rewrite andb_false_r. split; reflexivity.
Qed.

(** X8: on an initialized device the result of a write and of a read is
    the range test: [true] exactly when [address + len] does not exceed
    the capacity. *)
Theorem transfer_result_is_range_test m address vals len :
  _mode (self m) <> 0 -> is_u16 address -> is_u16 len ->
  0 < write_page_size (self m) len < 256 ->
  option_map fst (writeN address vals len m)
  = Some (address + len <=? _chip_size (self m))
  /\ option_map fst (readN address len m)
     = Some (address + len <=? _chip_size (self m)).
Proof.
  intros Hmode Ha Hl Hps.
  destruct (Z.leb_spec (address + len) (_chip_size (self m))) as [Hin|Hout].
  - rewrite writeN_run, readN_run by assumption. split; reflexivity.
  - destruct (out_of_range_run m address vals len Ha Hl Hout) as [-> ->].
    split; reflexivity.
Qed.

Lemma transfer_result_is_range_test_witness :
  option_map fst (writeN 2040 (repeat 1 8) 8 (ready AT24C16 0 255)) = Some true
  /\ option_map fst (writeN 2041 (repeat 1 8) 8 (ready AT24C16 0 255))
     = Some false.
Proof.
  split.
  - destruct (transfer_result_is_range_test (ready AT24C16 0 255) 2040
                (repeat 1 8) 8) as [H _].
    + vm_compute. discriminate.
    + unfold is_u16. lia.
    + unfold is_u16. lia.
    + vm_compute. split; reflexivity.
    + exact H.
  - destruct (transfer_result_is_range_test (ready AT24C16 0 255) 2041
                (repeat 1 8) 8) as [H _].
    + vm_compute. discriminate.
    + unfold is_u16. lia.
    + unfold is_u16. lia.
    + vm_compute. split; reflexivity.
    + exact H.
Defined.

(** X9: an accepted one-byte write is never split: it is one bus write of
    that byte (after the [setAddress] of a folding chip) and one delay. *)
Theorem write_byte_single_transaction m address val :
  _mode (self m) <> 0 -> is_u16 address ->
  address + 1 <= _chip_size (self m) ->
  0 < _page_size (self m) < 256 ->
  write_byte address val m =
  Some (true,
        log_calls m
          ((if truthy (_addr_ov_bits (self m))
            then [I2C_setAddress (folded_bus_address (self m) address)]
            else [])
           ++ [data_write (self m) address [val];
               HAL_delay_ms EEPROM_WRITE_CYCLE_TIME_MS])).
Proof.
  intros Hmode Ha Hrange Hps.
  assert (Ewps : write_page_size (self m) 1 = _page_size (self m)).
  { unfold write_page_size. rewrite andb_false_r. reflexivity. }
  destruct (rem_offset _ _ Hps Ha) as [Hoff Hb].
  unfold write_byte.
  rewrite writeN_run by (rewrite ?Ewps; (unfold is_u16; lia) || assumption).
  rewrite Ewps. unfold write_chunks, pages_req. rewrite Hoff.
  rewrite Z.quot_small by lia.
  change (Z.to_nat (u16 (0 + 1))) with 1%nat.
  cbn [chunks_from flat_map]. rewrite app_nil_r.
  unfold chunk_calls. cbn [fst snd].
  rewrite Z.min_r by lia.
  replace (address + 0 - address) with 0 by lia.
  rewrite Z.add_0_r. reflexivity.
Qed.

Lemma write_byte_single_transaction_witness :
  write_byte 0x7FF 0x42 (ready AT24C16 0 255) =
  Some (true,
        log_calls (ready AT24C16 0 255)
          [I2C_setAddress 0x57; I2C_write8 0xFF [0x42]; HAL_delay_ms 5]).
Proof.
  rewrite (write_byte_single_transaction (ready AT24C16 0 255) 0x7FF 0x42).
  - reflexivity.
  - vm_compute. discriminate.
  - unfold is_u16. lia.
  - vm_compute. discriminate.
  - vm_compute. split; reflexivity.
Defined.

(** ** Descriptors and bus addresses *)

Lemma land_shiftl_low a b n :
  0 <= n -> 0 <= a < 2 ^ n -> Z.land a (Z.shiftl b n) = 0.
Proof.
  intros Hn Ha. apply Z.bits_inj'. intros i Hi.
  rewrite Z.land_spec, Z.bits_0.
  destruct (Z_lt_le_dec i n) as [Hlt|Hge].
  - rewrite Z.shiftl_spec_low by lia. apply andb_false_r.
  - destruct (Z.eq_dec a 0) as [->|Hnz]; [rewrite Z.bits_0; reflexivity|].
    rewrite Z.bits_above_log2; [reflexivity | lia |].
    apply Z.lt_le_trans with n; [|exact Hge].
    apply Z.log2_lt_pow2; lia.
Qed.

Lemma lor_shiftl_add a b n :
  0 <= n -> 0 <= a < 2 ^ n -> Z.lor a (Z.shiftl b n) = a + b * 2 ^ n.
Proof.
  intros Hn Ha.
  pose proof (land_shiftl_low a b n Hn Ha) as L.
  rewrite <- Z.lxor_lor, <- Z.add_nocarry_lxor by exact L.
  rewrite Z.shiftl_mul_pow2 by lia. reflexivity.
Qed.

Lemma descriptor_sum cs ps ab ov :
  0 <= cs < 131072 -> 0 <= ps < 256 -> 0 <= ab < 4 -> 0 <= ov < 4 ->
  descriptor cs ps ab ov = cs + ps * 2 ^ 20 + ab * 2 ^ 28 + ov * 2 ^ 30.
Proof.
  intros Hcs Hps Hab Hov. unfold descriptor.
  rewrite (lor_shiftl_add cs ps 20) by lia.
  rewrite (lor_shiftl_add _ ab 28) by lia.
  rewrite (lor_shiftl_add _ ov 30) by lia.
  apply u32_small. lia.
Qed.

(** X10: the constructor decodes what the chip constants encode: a
    descriptor built from a capacity below 2^17, a page size below 256 and
    two-bit address-byte and overflow-bit counts yields exactly those
    fields. *)
Theorem constructor_decodes_descriptor cs ps ab ov chip_addr wp_pin :
  0 <= cs < 131072 -> 0 <= ps < 256 -> 0 <= ab < 4 -> 0 <= ov < 4 ->
  _chip_size (self (AT24CXX_new (descriptor cs ps ab ov) chip_addr wp_pin)) = cs
  /\ _page_size (self (AT24CXX_new (descriptor cs ps ab ov) chip_addr wp_pin)) = ps
  /\ _addr_bytes (self (AT24CXX_new (descriptor cs ps ab ov) chip_addr wp_pin)) = ab
  /\ _addr_ov_bits (self (AT24CXX_new (descriptor cs ps ab ov) chip_addr wp_pin)) = ov.
Proof.
  intros Hcs Hps Hab Hov.
  cbn [AT24CXX_new self _chip_size _page_size _addr_bytes _addr_ov_bits].
  rewrite descriptor_sum by assumption.
  set (x := cs + ps * 2 ^ 20 + ab * 2 ^ 28 + ov * 2 ^ 30).
  assert (Hx : 0 <= x < 4294967296) by (unfold x; lia).
  rewrite (u32_small x Hx), !Z.shiftr_land.
  change (Z.shiftr 0x0FF00000 20) with (Z.ones 8).
  change (Z.shiftr 0x30000000 28) with (Z.ones 2).
  change (Z.shiftr 0xC0000000 30) with (Z.ones 2).
  change 0x0001FFFF with (Z.ones 17).
  rewrite !Z.land_ones, !Z.shiftr_div_pow2 by lia.
  unfold u8.
  change (2 ^ 17) with 131072. change (2 ^ 8) with 256.
  change (2 ^ 2) with 4.
  change (2 ^ 20) with 1048576 in *. change (2 ^ 28) with 268435456 in *.
  change (2 ^ 30) with 1073741824 in *.
  unfold x in *. clear x.
  repeat split; Z.to_euclidean_division_equations; lia.
Qed.

Lemma constructor_decodes_descriptor_witness :
  _chip_size (self (AT24CXX_new (descriptor 65536 128 2 0) 0 255)) = 65536
  /\ _page_size (self (AT24CXX_new (descriptor 65536 128 2 0) 0 255)) = 128
  /\ _addr_bytes (self (AT24CXX_new (descriptor 65536 128 2 0) 0 255)) = 2
  /\ _addr_ov_bits (self (AT24CXX_new (descriptor 65536 128 2 0) 0 255)) = 0.
Proof.
  apply (constructor_decodes_descriptor 65536 128 2 0 0 255); lia.
Defined.

Lemma lor_low3 B x :
  Z.land B 7 = 0 -> 0 <= x < 8 -> Z.lor B x = B + x.
Proof.
  intros HB Hx.
  assert (L : Z.land B x = 0).
  { rewrite <- (land_small x 3) by (change (2 ^ 3) with 8; lia).
    change (Z.ones 3) with 7.
    rewrite (Z.land_comm x 7), Z.land_assoc, HB. apply Z.land_0_l. }
  pose proof (Z.add_lor_land B x) as E. lia.
Qed.

Lemma new_chip_addr_sum chip chip_addr wp_pin :
  _chip_addr (self (AT24CXX_new chip chip_addr wp_pin)) = 0x50 + chip_addr mod 8.
Proof.
  cbn [AT24CXX_new self _chip_addr]. unfold AT24CXX_ADDR.
  change 0x07 with (Z.ones 3). rewrite Z.land_ones by lia.
  change (2 ^ 3) with 8.
  assert (E : u8 chip_addr mod 8 = chip_addr mod 8)
    by (unfold u8; Z.to_euclidean_division_equations; lia).
  rewrite E.
  pose proof (Z.mod_pos_bound chip_addr 8 ltac:(lia)) as B.
  rewrite lor_low3 by (reflexivity || lia).
  apply u8_small. lia.
Qed.

Lemma new_chip_addr_high chip chip_addr wp_pin :
  Z.land (_chip_addr (self (AT24CXX_new chip chip_addr wp_pin))) 0xF8 = 0x50.
Proof.
  rewrite new_chip_addr_sum.
  pose proof (Z.mod_pos_bound chip_addr 8 ltac:(lia)) as B.
  assert (H : chip_addr mod 8 = 0 \/ chip_addr mod 8 = 1 \/ chip_addr mod 8 = 2
              \/ chip_addr mod 8 = 3 \/ chip_addr mod 8 = 4 \/ chip_addr mod 8 = 5
              \/ chip_addr mod 8 = 6 \/ chip_addr mod 8 = 7) by lia.
  repeat (destruct H as [-> | H]; [reflexivity|]). rewrite H. reflexivity.
Qed.

(** X11: the bus base address the constructor stores is 0x50 plus the low
    three bits of the [chip_addr] argument, an address from 0x50 to
    0x57. *)
Theorem constructor_bus_base_address chip chip_addr wp_pin :
  _chip_addr (self (AT24CXX_new chip chip_addr wp_pin)) = 0x50 + chip_addr mod 8
  /\ 0x50 <= _chip_addr (self (AT24CXX_new chip chip_addr wp_pin)) <= 0x57.
Proof.
  rewrite new_chip_addr_sum.
  pose proof (Z.mod_pos_bound chip_addr 8 ltac:(lia)) as B.
  split; [reflexivity | lia].
Qed.

Lemma folded_bus_address_sum d a :
  folded_bus_address d a = Z.land (_chip_addr d) 0xF8 + (a / 256) mod 8.
Proof.
  unfold folded_bus_address.
  rewrite u8_land, Z.land_lor_distr_l, Z.shiftr_land.
  rewrite <- !Z.land_assoc.
  change (Z.land 0xF8 0xFF) with 0xF8.
  change (Z.land (Z.shiftr 0x0700 8) 0xFF) with (Z.ones 3).
  rewrite Z.land_ones, Z.shiftr_div_pow2 by lia.
  change (2 ^ 8) with 256. change (2 ^ 3) with 8.
  apply lor_low3.
  - rewrite <- Z.land_assoc. apply Z.land_0_r.
  - apply Z.mod_pos_bound. lia.
Qed.

(** X12: the bus address of a transfer on a folding chip is 0x50 plus
    bits 8 to 10 of the logical address; the [chip_addr] argument of the
    constructor has no part in it. *)
Theorem folded_bus_address_ignores_bias chip chip_addr wp_pin a :
  folded_bus_address (self (AT24CXX_new chip chip_addr wp_pin)) a
  = 0x50 + (a / 256) mod 8.
Proof.
  rewrite folded_bus_address_sum, new_chip_addr_high.
  reflexivity.
Qed.

Lemma read_calls_injective d a b n :
  0 <= a < wire_reach d -> 0 <= b < wire_reach d ->
  read_calls d a n = read_calls d b n -> a = b.
Proof.
  unfold wire_reach, read_calls. intros Ha Hb.
  destruct (1 <? _addr_bytes d).
  - intros H. apply app_inj_tail in H. destruct H as [_ H].
    injection H as H. unfold u16 in H.
    rewrite !Z.mod_small in H by lia. exact H.
  - destruct (truthy (_addr_ov_bits d)); cbn [app]; intros H.
    + inversion H as [[Hbus Hreg]].
      rewrite !folded_bus_address_sum in Hbus. unfold u8 in Hreg.
      assert (Hq : (a / 256) mod 8 = (b / 256) mod 8) by lia.
      clear Hbus H.
      Z.to_euclidean_division_equations. lia.
    + inversion H as [Hreg]. unfold u8 in Hreg.
      rewrite !Z.mod_small in Hreg by lia. exact Hreg.
Qed.

Lemma chip_table_within_reach chip_addr wp_pin :
  Forall (fun chip =>
            _chip_size (self (AT24CXX_new chip chip_addr wp_pin))
            <= wire_reach (self (AT24CXX_new chip chip_addr wp_pin)))
         chip_table.
Proof.
  unfold chip_table.
  repeat (apply Forall_cons; [vm_compute; discriminate|]).
  apply Forall_nil.
Qed.

(** X13: on each of the ten chips of the table the translation is
    injective within the capacity: reads at two different logical
    addresses never make the same bus calls. *)
Theorem table_translation_injective chip chip_addr wp_pin a b n :
  In chip chip_table ->
  0 <= a < _chip_size (self (AT24CXX_new chip chip_addr wp_pin)) ->
  0 <= b < _chip_size (self (AT24CXX_new chip chip_addr wp_pin)) ->
  read_calls (self (AT24CXX_new chip chip_addr wp_pin)) a n
  = read_calls (self (AT24CXX_new chip chip_addr wp_pin)) b n ->
  a = b.
Proof.
  intros Hin Ha Hb.
  pose proof (chip_table_within_reach chip_addr wp_pin) as F.
  rewrite Forall_forall in F. specialize (F chip Hin).
  apply read_calls_injective; lia.
Qed.

Lemma table_translation_injective_witness : 0x1AB = 0x100 + 0xAB.
Proof.
  apply (table_translation_injective AT24C08 0 255 0x1AB (0x100 + 0xAB) 4).
  - vm_compute. tauto.
  - vm_compute. split; [discriminate | reflexivity].
  - vm_compute. split; [discriminate | reflexivity].
  - vm_compute. reflexivity.
Defined.

(** ** Before and after init *)

(** X14: before [init()], [setWriteProtect] and [clearWriteProtect] drive
    the pin exactly when the device was built with pin number 2 (the mode
    then reads "active, pin used"); with any other pin they do nothing. *)
Theorem write_protect_before_init chip chip_addr wp_pin :
  setWriteProtect (AT24CXX_new chip chip_addr wp_pin)
  = Some (tt,
          if u8 wp_pin =? 2
          then log_calls (AT24CXX_new chip chip_addr wp_pin)
                 [GPIO_digitalWrite 2 true]
          else AT24CXX_new chip chip_addr wp_pin)
  /\ clearWriteProtect (AT24CXX_new chip chip_addr wp_pin)
     = Some (tt,
             if u8 wp_pin =? 2
             then log_calls (AT24CXX_new chip chip_addr wp_pin)
                    [GPIO_digitalWrite 2 false]
             else AT24CXX_new chip chip_addr wp_pin).
Proof.
  unfold setWriteProtect, clearWriteProtect, bind, this, call, skip, ret.
  cbn [AT24CXX_new self _mode _wp_pin hal log_calls].
  rewrite (Z.eqb_sym 2 (u8 wp_pin)).
  destruct (Z.eqb_spec (u8 wp_pin) 2) as [->|_]; split; reflexivity.
Qed.

(** X15: before [init()], a request within capacity is served exactly
    when the device was built with a pin number other than 0: the result
    of the read and of the write is [true] for every such pin and [false]
    for pin 0. *)
Theorem guard_before_init chip chip_addr wp_pin address vals len :
  is_u16 address -> is_u16 len ->
  address + len <= _chip_size (self (AT24CXX_new chip chip_addr wp_pin)) ->
  0 < write_page_size (self (AT24CXX_new chip chip_addr wp_pin)) len < 256 ->
  option_map fst (readN address len (AT24CXX_new chip chip_addr wp_pin))
  = Some (negb (u8 wp_pin =? 0))
  /\ option_map fst (writeN address vals len (AT24CXX_new chip chip_addr wp_pin))
     = Some (negb (u8 wp_pin =? 0)).
Proof.
  intros Ha Hl Hrange Hps.
  destruct (Z.eqb_spec (u8 wp_pin) 0) as [E|N]; cbn [negb].
  - destruct (guard_before_init_pin0 chip chip_addr wp_pin address vals len E)
      as [-> ->]. split; reflexivity.
  - rewrite readN_run, writeN_run by assumption. split; reflexivity.
Qed.

Lemma guard_before_init_witness :
  option_map fst (readN 0 16 (AT24CXX_new AT24C02 0 7)) = Some true
  /\ option_map fst (readN 0 16 (AT24CXX_new AT24C02 0 256)) = Some false.
Proof.
  split.
  - destruct (guard_before_init AT24C02 0 7 0 [] 16) as [H _].
    + unfold is_u16. lia.
    + unfold is_u16. lia.
    + vm_compute. discriminate.
    + vm_compute. split; reflexivity.
    + exact H.
  - destruct (guard_before_init AT24C02 0 256 0 [] 16) as [H _].
    + unfold is_u16. lia.
    + unfold is_u16. lia.
    + vm_compute. discriminate.
    + vm_compute. split; reflexivity.
    + exact H.
Defined.

(** X16: [init()] always ends in mode 2 and changes nothing else of the
    driver; a second [init()] leaves the driver as the first one did and
    makes the same three HAL calls again (transport init, pin direction,
    pin low). *)
Theorem init_twice m :
  is_u8 (_mode (self m)) ->
  self (after init m) = set_mode (self m) 2
  /\ (init ;; init) m =
     Some (tt,
           log_calls (after init m)
             [I2C_init; GPIO_pinMode (_wp_pin (self m)) OUTPUT;
              GPIO_digitalWrite (_wp_pin (self m)) false])
  /\ self (after (init ;; init) m) = self (after init m).
Proof.
  intros Hm.
  assert (E1 : init m = Some (tt, after init m))
    by (unfold after; rewrite init_run by exact Hm; reflexivity).
  assert (S1 : self (after init m) = set_mode (self m) 2)
    by (unfold after; rewrite init_run by exact Hm; reflexivity).
  assert (E2 : (init ;; init) m =
               Some (tt,
                     log_calls (after init m)
                       [I2C_init; GPIO_pinMode (_wp_pin (self m)) OUTPUT;
                        GPIO_digitalWrite (_wp_pin (self m)) false])).
  { unfold bind at 1. rewrite E1.
    rewrite init_run by (rewrite S1; cbn; unfold is_u8; lia).
    unfold log_calls. rewrite !S1. reflexivity. }
  split; [exact S1|]. split; [exact E2|].
  unfold after at 1. rewrite E2. reflexivity.
Qed.

Lemma init_twice_witness :
  self (after (init ;; init) (AT24CXX_new AT24C128 1 4))
  = self (after init (AT24CXX_new AT24C128 1 4)).
Proof.
  destruct (init_twice (AT24CXX_new AT24C128 1 4)) as (_ & _ & H).
  - vm_compute. split; [discriminate | reflexivity].
  - exact H.
Defined.

(** ** Chunks and the one-byte address register *)

(** X17: when the page size a write is chunked by divides 256, every byte
    of every chunk of an accepted write lies in the 256-byte block of the
    chunk's first byte: it has the bus address announced for the chunk,
    and the one-byte in-chip address does not wrap inside the chunk. *)
Theorem chunk_within_address_block m address vals len :
  _mode (self m) <> 0 -> is_u16 address -> is_u16 len ->
  address + len <= _chip_size (self m) ->
  0 < write_page_size (self m) len < 256 ->
  256 mod write_page_size (self m) len = 0 ->
  writeN address vals len m =
  Some (true,
        log_calls m
          (flat_map (chunk_calls (self m) address vals)
             (write_chunks (write_page_size (self m) len) address len)))
  /\ Forall (fun c : chunk =>
               forall i, 0 <= i < snd c ->
                 folded_bus_address (self m) (fst c + i)
                 = folded_bus_address (self m) (fst c)
                 /\ u8 (fst c + i) = u8 (fst c) + i)
            (write_chunks (write_page_size (self m) len) address len).
Proof.
  intros Hmode Ha Hl Hrange Hps Hdiv.
  split; [apply writeN_run; assumption|].
  destruct (rem_offset _ _ Hps Ha) as [Hoff Hb].
  unfold write_chunks. rewrite Hoff.
  eapply Forall_impl;
    [|apply chunks_from_in_page;
      [exact Hb | unfold is_u16 in *; lia | left; rewrite Z.add_0_r; reflexivity]].
  cbn beta. intros c (Hs & _ & Hin) i Hi.
  assert (H256 : fst c mod 256 + snd c <= 256).
  { eapply in_page_coarser; [| | exact Hdiv | exact Hin]; lia. }
  rewrite !folded_bus_address_sum. unfold u8.
  assert (Hq : (fst c + i) / 256 = fst c / 256)
    by (Z.to_euclidean_division_equations; lia).
  rewrite Hq. split; [reflexivity|].
  Z.to_euclidean_division_equations. lia.
Qed.

Lemma chunk_within_address_block_witness :
  Forall (fun c : chunk =>
            forall i, 0 <= i < snd c ->
              folded_bus_address (self (ready AT24C16 0 255)) (fst c + i)
              = folded_bus_address (self (ready AT24C16 0 255)) (fst c)
              /\ u8 (fst c + i) = u8 (fst c) + i)
         [(0x2FA, 6); (0x300, 16); (0x310, 2)].
Proof.
  destruct (chunk_within_address_block (ready AT24C16 0 255) 0x2FA
              (repeat 0 24) 24) as (_ & F).
  - vm_compute. discriminate.
  - unfold is_u16. lia.
  - unfold is_u16. lia.
  - vm_compute. discriminate.
  - vm_compute. split; reflexivity.
  - vm_compute. reflexivity.
  - exact F.
Defined.
